(** * extract_zip_files: a model of the ZIP extraction utility

    The program under study is [projects/Extract_zip_files/extract_zip_files.py]:
    the function [extract], the parser built by [_build_parser] and the entry
    point [main].  The three functions are glue around the Python standard
    library, so the development has two layers.

    - A model of the host: Python's [str] methods and [posixpath] functions
      (written after CPython 3.11's [posixpath.py] and [genericpath.py]), a
      POSIX file tree with the system calls the program reaches ([stat],
      [mkdir], [open]), [os.makedirs], and [zipfile.ZipFile.extractall]
      (after [os.py] and [zipfile.py]).
    - The program itself, over a state-and-exception monad on the file tree.

    Scope of the host model: a POSIX host; no symbolic links, no permissions,
    quotas or name-length limits, one process (no races); path strings hold no
    NUL character; the ZIP container format is a parameter ([decode]), and the
    members it yields are readable. *)

From Stdlib Require Import ZArith Ascii String Lia.
From stdpp Require Import base decidable option list strings gmap.

Local Open Scope Z_scope.

(** ** Python [str] methods *)

Module Str.

Definition is_empty (s : string) : bool :=
  match s with "" => true | _ => false end.

(** [s.startswith(pre)] *)
Fixpoint startswith (s pre : string) {struct pre} : bool :=
  match pre with
  | "" => true
  | String a pre' =>
      match s with
      | "" => false
      | String b s' => Ascii.eqb a b && startswith s' pre'
      end
  end.

(** [s.endswith(suf)]: some tail of [s] is [suf]. *)
Fixpoint endswith (s suf : string) : bool :=
  String.eqb s suf ||
  match s with
  | "" => false
  | String _ r => endswith r suf
  end.

(** [s.rfind(c)]: the highest index of [c] in [s], or [-1]. *)
Fixpoint rfind (s : string) (c : ascii) : Z :=
  match s with
  | "" => -1
  | String a r =>
      let i := rfind r c in
      if 0 <=? i then i + 1 else if Ascii.eqb a c then 0 else -1
  end.

Fixpoint take (n : nat) (s : string) : string :=
  match n, s with
  | S n', String a r => String a (take n' r)
  | _, _ => ""
  end.

Fixpoint drop (n : nat) (s : string) : string :=
  match n, s with
  | S n', String _ r => drop n' r
  | _, _ => s
  end.

(** [s[:i]] and [s[i:]] for an index [0 <= i]. *)
Definition slice_to (s : string) (i : Z) : string := take (Z.to_nat i) s.
Definition slice_from (s : string) (i : Z) : string := drop (Z.to_nat i) s.
(** [s[i:j]] *)
Definition slice (s : string) (i j : Z) : string :=
  slice_from (slice_to s j) i.

(** [s.rstrip(c)] *)
Fixpoint rstrip (s : string) (c : ascii) : string :=
  match s with
  | "" => ""
  | String a r =>
      match rstrip r c with
      | "" => if Ascii.eqb a c then "" else String a ""
      | r' => String a r'
      end
  end.

(** [c * n] *)
Fixpoint repeat (c : ascii) (n : nat) : string :=
  match n with
  | O => ""
  | S n' => String c (repeat c n')
  end.

(** [s.split(c)]: never empty, [''.split('/') == ['']]. *)
Fixpoint split (s : string) (c : ascii) : list string :=
  match s with
  | "" => [""]
  | String a r =>
      if Ascii.eqb a c then "" :: split r c
      else match split r c with
           | x :: xs => String a x :: xs
           | [] => [String a ""]
           end
  end.

(** [c in s] *)
Fixpoint contains (s : string) (c : ascii) : bool :=
  match s with
  | "" => false
  | String a r => Ascii.eqb a c || contains r c
  end.

(** ASCII [s.lower()] *)
Definition lower_char (c : ascii) : ascii :=
  let n := nat_of_ascii c in
  if ((65 <=? n) && (n <=? 90))%nat then ascii_of_nat (n + 32) else c.

Fixpoint lower (s : string) : string :=
  match s with
  | "" => ""
  | String a r => String (lower_char a) (lower r)
  end.

End Str.

(** ** [posixpath] *)

Definition sep : ascii := "/"%char.
Definition extsep : ascii := "."%char.

(** [posixpath.split]:
    [i = p.rfind(sep) + 1; head, tail = p[:i], p[i:];
     if head and head != sep*len(head): head = head.rstrip(sep)] *)
Definition split (p : string) : string * string :=
  let i := Str.rfind p sep + 1 in
  let head := Str.slice_to p i in
  let tail := Str.slice_from p i in
  let head :=
    if negb (Str.is_empty head)
       && negb (String.eqb head (Str.repeat sep (String.length head)))
    then Str.rstrip head sep else head in
  (head, tail).

(** [posixpath.basename]: [i = p.rfind(sep) + 1; return p[i:]] *)
Definition basename (p : string) : string :=
  let i := Str.rfind p sep + 1 in
  Str.slice_from p i.

(** [posixpath.dirname] *)
Definition dirname (p : string) : string :=
  let i := Str.rfind p sep + 1 in
  let head := Str.slice_to p i in
  if negb (Str.is_empty head)
     && negb (String.eqb head (Str.repeat sep (String.length head)))
  then Str.rstrip head sep else head.

(** The loop of [genericpath._splitext] that skips the leading dots of the
    file name: it answers [true] when a character other than [extsep] stands
    at some index of [filenameIndex .. dotIndex - 1], visited in [n] steps. *)
Fixpoint other_than_dot (p : string) (filenameIndex : Z) (n : nat) : bool :=
  match n with
  | O => false
  | S n' =>
      if negb (String.eqb (Str.slice p filenameIndex (filenameIndex + 1))
                          (String extsep ""))
      then true
      else other_than_dot p (filenameIndex + 1) n'
  end.

(** [posixpath.splitext], that is [genericpath._splitext(p, '/', None, '.')]. *)
Definition splitext (p : string) : string * string :=
  let sepIndex := Str.rfind p sep in
  let dotIndex := Str.rfind p extsep in
  if sepIndex <? dotIndex then
    let filenameIndex := sepIndex + 1 in
    if other_than_dot p filenameIndex (Z.to_nat (dotIndex - filenameIndex))
    then (Str.slice_to p dotIndex, Str.slice_from p dotIndex)
    else (p, "")
  else (p, "").

(** [posixpath.join(a, b)] *)
Definition join (a b : string) : string :=
  if Str.startswith b "/" then b
  else if Str.is_empty a || Str.endswith a "/" then a +:+ b
  else a +:+ "/" +:+ b.

(** One turn of the loop of [posixpath.normpath]; [new_comps] is kept
    newest first. *)
Definition normpath_step (initial_slashes : nat) (new_comps : list string)
    (comp : string) : list string :=
  if String.eqb comp "" || String.eqb comp "." then new_comps
  else if negb (String.eqb comp "..")
          || (Nat.eqb initial_slashes 0
              && match new_comps with [] => true | _ => false end)
          || match new_comps with
             | top :: _ => String.eqb top ".."
             | [] => false
             end
  then comp :: new_comps
  else match new_comps with
       | _ :: below => below
       | [] => []
       end.

(** [posixpath.normpath] *)
Definition normpath (path : string) : string :=
  if Str.is_empty path then "." else
  let initial_slashes : nat :=
    if Str.startswith path "/" then
      if Str.startswith path "//" && negb (Str.startswith path "///")
      then 2%nat else 1%nat
    else 0%nat in
  let comps := Str.split path sep in
  let new_comps := rev (fold_left (normpath_step initial_slashes) comps []) in
  let path := String.concat "/" new_comps in
  let path := Str.repeat sep initial_slashes +:+ path in
  if Str.is_empty path then "." else path.

Example split_ex :
  split "/tmp/foo.zip" = ("/tmp", "foo.zip") ∧ split "a//b" = ("a", "b")
  ∧ split "//" = ("//", "") ∧ split "a" = ("", "a") ∧ split "/a" = ("/", "a").
Proof. repeat split; reflexivity. Qed.

Example splitext_ex :
  splitext "foo.zip" = ("foo", ".zip") ∧ splitext ".zip" = (".zip", "")
  ∧ splitext "a.b/c" = ("a.b/c", "") ∧ splitext "x/..zip" = ("x/..zip", "")
  ∧ splitext "a.tar.zip" = ("a.tar", ".zip").
Proof. repeat split; reflexivity. Qed.

Example normpath_ex :
  normpath "out/./a//b/../c" = "out/a/c" ∧ normpath "//x/" = "//x"
  ∧ normpath "../a" = "../a" ∧ normpath "/.." = "/" ∧ normpath "a/.." = ".".
Proof. repeat split; reflexivity. Qed.

(** ** The file tree and the system calls

    A location is the list of names from the root; the tree is a finite map
    from locations to nodes, and the root is always a directory. *)

Abbreviation bytes := (list Byte.byte).
Abbreviation loc := (list string).

Inductive node : Type :=
| File (content : bytes)
| Dir.

Abbreviation fs := (gmap loc node).

Inductive errno : Type := ENOENT | EEXIST | ENOTDIR | EISDIR.

Definition lookup_node (s : fs) (L : loc) : option node :=
  match L with
  | [] => Some Dir
  | _ => s !! L
  end.

(** One component of a path, from the directory [cur]. *)
Definition step (cur : loc) (c : string) : loc :=
  if String.eqb c "" || String.eqb c "." then cur
  else if String.eqb c ".." then removelast cur
  else cur ++ [c].

(** Path resolution: every component is looked up in a directory that has to
    exist; the location reached by the last component may be absent. *)
Fixpoint walk (s : fs) (cur : loc) (comps : list string) : errno + loc :=
  match comps with
  | [] => inr cur
  | c :: rest =>
      match lookup_node s cur with
      | None => inl ENOENT
      | Some (File _) => inl ENOTDIR
      | Some Dir => walk s (step cur c) rest
      end
  end.

(** The components of a path without its trailing slashes. *)
Fixpoint rstrip_empty (comps : list string) : list string :=
  match comps with
  | [] => []
  | c :: rest =>
      match rstrip_empty rest with
      | [] => if String.eqb c "" then [] else [c]
      | rest' => c :: rest'
      end
  end.

Definition is_dot (c : string) : bool :=
  String.eqb c "." || String.eqb c "..".

Section Host.

(** The working directory of the process, as [os.getcwd()] returns it. *)
Variable cwd : string.

(** The components of [p], taken from the root. *)
Definition components (p : string) : list string :=
  Str.split (if Str.startswith p "/" then p else cwd +:+ "/" +:+ p) sep.

Definition resolve (s : fs) (p : string) : errno + loc :=
  if Str.is_empty p then inl ENOENT else walk s [] (components p).

(** [stat(2)] *)
Definition sys_stat (s : fs) (p : string) : errno + node :=
  match resolve s p with
  | inl e => inl e
  | inr L =>
      match lookup_node s L with
      | None => inl ENOENT
      | Some n => inr n
      end
  end.

(** The directory that holds the last name of [comps], and that name. *)
Definition parent_of (s : fs) (comps : list string) : errno + loc * string :=
  match walk s [] (removelast comps) with
  | inl e => inl e
  | inr L =>
      match lookup_node s L with
      | None => inl ENOENT
      | Some (File _) => inl ENOTDIR
      | Some Dir => inr (L, List.last comps "")
      end
  end.

(** [mkdir(2)] *)
Definition sys_mkdir (s : fs) (p : string) : errno + fs :=
  if Str.is_empty p then inl ENOENT else
  match rstrip_empty (components p) with
  | [] => inl EEXIST
  | comps =>
      match parent_of s comps with
      | inl e => inl e
      | inr (L, name) =>
          if is_dot name then inl EEXIST
          else match s !! (L ++ [name]) with
               | Some _ => inl EEXIST
               | None => inr (<[L ++ [name] := Dir]> s)
               end
      end
  end.

(** [open(2)] with [O_WRONLY|O_CREAT|O_TRUNC], then the whole of [content]
    written and the file closed: Python's [open(p, "wb")] and a copy. *)
Definition sys_write (s : fs) (p : string) (content : bytes) : errno + fs :=
  if Str.is_empty p then inl ENOENT else
  let comps := components p in
  match rstrip_empty comps with
  | [] => inl EISDIR
  | comps' =>
      match parent_of s comps' with
      | inl e => inl e
      | inr (L, name) =>
          if is_dot name then inl EISDIR
          else if negb (Nat.eqb (length comps') (length comps)) then inl EISDIR
          else match s !! (L ++ [name]) with
               | Some Dir => inl EISDIR
               | _ => inr (<[L ++ [name] := File content]> s)
               end
      end
  end.

(** [open(2)] with [O_RDONLY] and a read to the end: Python's
    [open(p, "rb")], which refuses a directory. *)
Definition sys_read (s : fs) (p : string) : errno + bytes :=
  match sys_stat s p with
  | inl e => inl e
  | inr Dir => inl EISDIR
  | inr (File content) => inr content
  end.

End Host.

(** ** Python exceptions and the monad of the program *)

Inductive exn_class : Type :=
| ValueError
| FileNotFoundError
| FileExistsError
| NotADirectoryError
| IsADirectoryError
| BadZipFile
| IndexError
| KeyError
| AttributeError
| RecursionError
| UnicodeDecodeError
| NotImplementedError.

Inductive exn : Type :=
| Exn (cls : exn_class) (msg : string).

(** [isinstance(e, OSError)] *)
Definition is_OSError (e : exn) : bool :=
  match e with
  | Exn FileNotFoundError _ | Exn FileExistsError _
  | Exn NotADirectoryError _ | Exn IsADirectoryError _ => true
  | _ => false
  end.

Inductive result (A : Type) : Type :=
| Return (a : A)
| Raise (e : exn).
Arguments Return {A} a.
Arguments Raise {A} e.

(** A computation reads and updates the file tree, and returns or raises. *)
Definition M (A : Type) : Type := fs → result A * fs.

Global Instance M_ret : MRet M := λ A a s, (Return a, s).
Global Instance M_bind : MBind M := λ A B f m s,
  match m s with
  | (Return a, s') => f a s'
  | (Raise e, s') => (Raise e, s')
  end.

Definition raise {A : Type} (e : exn) : M A := λ s, (Raise e, s).

(** [try: m  except <caught>: handler] *)
Definition try_except {A : Type} (m : M A) (caught : exn → bool)
    (handler : exn → M A) : M A := λ s,
  match m s with
  | (Raise e, s') => if caught e then handler e s' else (Raise e, s')
  | r => r
  end.

(** *** [repr] of a string and the text of an [OSError] *)

Definition hex_digit (n : nat) : ascii :=
  ascii_of_nat (if (n <? 10)%nat then 48 + n else 87 + n).

(** Code points below 256 that [str.isprintable] accepts. *)
Definition is_printable (n : nat) : bool :=
  ((32 <=? n) && (n <? 127) || (161 <=? n) && negb (n =? 173))%nat.

Definition repr_char (quote : ascii) (c : ascii) : string :=
  if Ascii.eqb c quote || Ascii.eqb c "\"%char then String "\"%char (String c "")
  else if Ascii.eqb c "009"%char then "\t"
  else if Ascii.eqb c "010"%char then "\n"
  else if Ascii.eqb c "013"%char then "\r"
  else
    let n := nat_of_ascii c in
    if is_printable n then String c ""
    else String "\"%char (String "x"%char
           (String (hex_digit (n / 16)) (String (hex_digit (n mod 16)) ""))).

Fixpoint repr_body (quote : ascii) (s : string) : string :=
  match s with
  | "" => ""
  | String c r => repr_char quote c +:+ repr_body quote r
  end.

(** [repr(s)] for a [str] of code points below 256. *)
Definition repr (s : string) : string :=
  let quote : ascii :=
    if Str.contains s "'"%char && negb (Str.contains s "034"%char)
    then "034"%char else "'"%char in
  String quote (repr_body quote s) +:+ String quote "".

Definition errno_class (e : errno) : exn_class :=
  match e with
  | ENOENT => FileNotFoundError
  | EEXIST => FileExistsError
  | ENOTDIR => NotADirectoryError
  | EISDIR => IsADirectoryError
  end.

Definition strerror (e : errno) : string :=
  match e with
  | ENOENT => "[Errno 2] No such file or directory"
  | EEXIST => "[Errno 17] File exists"
  | ENOTDIR => "[Errno 20] Not a directory"
  | EISDIR => "[Errno 21] Is a directory"
  end.

(** The [OSError] that a failed system call on [p] raises, and its [str]. *)
Definition os_error (e : errno) (p : string) : exn :=
  Exn (errno_class e) (strerror e +:+ ": " +:+ repr p).

Example repr_ex :
  repr "a.zip" = "'a.zip'"
  ∧ repr "it's" = String "034"%char ("it's" +:+ String "034"%char "")
  ∧ repr (String "010"%char "b") = "'\nb'"
  ∧ repr (String "001"%char "") = "'\x01'".
Proof. repeat split; reflexivity. Qed.

(** ** [argparse]

    The parser is modelled for the command lines made of option strings, each
    followed by its value, and of [-h]/[--help].  argparse's conveniences
    (abbreviated long options, [--output=DIR], [-lFILE], the [--] separator,
    values that look like negative numbers) are outside the model. *)

Definition nl : string := String "010"%char "".

(** [print(x, file=stream)]: [x] and a newline, appended to the stream. *)
Definition print (stream x : string) : string := stream +:+ x +:+ nl.

(** An optional argument declared by [add_argument]. *)
Record Action : Type :=
  { option_strings : list string; dest : string; required : bool;
    help : string }.

Record ArgumentParser : Type :=
  { prog : string; description : string; actions : list Action }.

(** [parse_args] returns a namespace (the values stored, by [dest]; an attribute
    that is absent holds [None]), or leaves through [parser.exit]: with status
    0 after printing the help, with status 2 from [parser.error]. *)
Inductive parse_result : Type :=
| Namespace (values : gmap string string)
| Help
| Error (message : string).

Definition looks_like_option (arg : string) : bool :=
  Str.startswith arg "-" && (1 <? String.length arg)%nat.

Definition find_action (actions : list Action) (arg : string) : option Action :=
  List.find (λ a, existsb (String.eqb arg) (option_strings a)) actions.

Definition action_name (a : Action) : string :=
  String.concat "/" (option_strings a).

(** The loop over the argument strings: [extras] collects the strings that
    no action takes. *)
Fixpoint consume (actions : list Action) (arg_strings : list string)
    (values : gmap string string) (extras : list string)
    : parse_result + gmap string string * list string :=
  match arg_strings with
  | [] => inr (values, extras)
  | arg :: rest =>
      if String.eqb arg "-h" || String.eqb arg "--help" then inl Help
      else
        match find_action actions arg with
        | None => consume actions rest values (extras ++ [arg])
        | Some a =>
            match rest with
            | value :: rest' =>
                if looks_like_option value
                then inl (Error ("argument " +:+ action_name a
                                 +:+ ": expected one argument"))
                else consume actions rest' (<[dest a := value]> values) extras
            | [] => inl (Error ("argument " +:+ action_name a
                                +:+ ": expected one argument"))
            end
        end
  end.

(** [ArgumentParser.parse_args(argv)] *)
Definition parse_args (parser : ArgumentParser) (argv : list string)
    : parse_result :=
  match consume (actions parser) argv ∅ [] with
  | inl r => r
  | inr (values, extras) =>
      match List.filter
              (λ a, required a && negb (bool_decide (is_Some (values !! dest a))))
              (actions parser) with
      | (_ :: _) as missing =>
          Error ("the following arguments are required: "
                 +:+ String.concat ", " (action_name <$> missing))
      | [] =>
          match extras with
          | [] => Namespace values
          | _ => Error ("unrecognized arguments: " +:+ String.concat " " extras)
          end
      end
  end.

(** [_build_parser()], lines 51-74. *)
Definition _build_parser : ArgumentParser :=
  {| prog := "extract_zip_files";
     description :=
       "Extract a .zip archive to a directory (defaults to archive name)";
     actions :=
       [ {| option_strings := ["-l"; "--zippedfile"];
            dest := "zippedfile";
            required := true;
            help := "Path to the zipped .zip file to extract" |};
         {| option_strings := ["-o"; "--output"];
            dest := "output";
            required := false;
            help := "Optional output directory. If omitted, a directory named "
                    +:+ "after the archive is used." |} ] |}.

(** [parser.format_usage()] and [parser.format_help()] for a parser of
    optional arguments: one line of usage, the description, one entry for
    each option.  The columns and the line wrapping of argparse's help are
    not reproduced. *)
Definition metavar (a : Action) : string :=
  string_of_list_ascii
    ((λ c, let n := nat_of_ascii c in
           if ((97 <=? n) && (n <=? 122))%nat then ascii_of_nat (n - 32) else c)
       <$> list_ascii_of_string (dest a)).

Definition usage_part (a : Action) : string :=
  let body := List.hd "" (option_strings a) +:+ " " +:+ metavar a in
  if required a then " " +:+ body else " [" +:+ body +:+ "]".

Definition format_usage (parser : ArgumentParser) : string :=
  "usage: " +:+ prog parser +:+ " [-h]"
  +:+ String.concat "" (usage_part <$> actions parser) +:+ nl.

Definition format_help (parser : ArgumentParser) : string :=
  format_usage parser +:+ nl +:+ description parser +:+ nl +:+ nl
  +:+ "options:" +:+ nl
  +:+ "  -h, --help  show this help message and exit" +:+ nl
  +:+ String.concat ""
        ((λ a, "  "
               +:+ String.concat ", "
                     ((λ o, o +:+ " " +:+ metavar a) <$> option_strings a)
               +:+ "  " +:+ help a +:+ nl) <$> actions parser).

(** ** [os], [os.path] and [zipfile] *)

(** A member of an archive as [ZipFile] holds it once the file is open: the
    [ZipInfo.filename] and the bytes that reading the member yields. *)
Record ZipInfo : Type := { filename : string; file_data : bytes }.

(** [name[-1] == '/'], or [None] where the index is out of range. *)
Definition ends_with_sep (name : string) : option bool :=
  match rev (list_ascii_of_string name) with
  | [] => None
  | c :: _ => Some (Ascii.eqb c "/")
  end.

(** [ZipFile.NameToInfo]: the dictionary keeps the last member of each
    name. *)
Definition NameToInfo (filelist : list ZipInfo) (name : string)
    : option ZipInfo :=
  List.find (λ m, String.eqb (filename m) name) (rev filelist).

Section Program.

Variable cwd : string.

(** The archive reader: [Some] of the members in the order of the central
    directory ([ZipFile.filelist]), or [None] for a file that
    [zipfile.ZipFile] does not open. *)
Variable decode : bytes → option (list ZipInfo).

(** The exception that [zipfile.ZipFile] raises on a file it does not open:
    a [BadZipFile] with one of the texts of the reader ([File is not a zip
    file] where it finds no end of central directory, [Truncated central
    directory], [Bad magic number for central directory], ...), a
    [UnicodeDecodeError] for a member name marked UTF-8 that is not, a
    [NotImplementedError] for a version that the reader does not know. *)
Variable open_error : bytes → exn.

(** A system call that changes the tree, as Python wraps it. *)
Definition os_call (r : fs → errno + fs) (p : string) : M unit := λ s,
  match r s with
  | inl e => (Raise (os_error e p), s)
  | inr s' => (Return tt, s')
  end.

Definition mkdir (p : string) : M unit :=
  os_call (λ s, sys_mkdir cwd s p) p.

(** [open(p, "wb")] and the copy of [content] into it. *)
Definition write_file (p : string) (content : bytes) : M unit :=
  os_call (λ s, sys_write cwd s p content) p.

(** [open(p, "rb")] and a read to the end. *)
Definition read_file (p : string) : M bytes := λ s,
  match sys_read cwd s p with
  | inl e => (Raise (os_error e p), s)
  | inr content => (Return content, s)
  end.

(** [os.path.exists]: [os.stat] did not raise. *)
Definition path_exists (p : string) : M bool := λ s,
  (Return (match sys_stat cwd s p with inr _ => true | inl _ => false end), s).

(** [os.path.isdir] *)
Definition isdir (p : string) : M bool := λ s,
  (Return (match sys_stat cwd s p with inr Dir => true | _ => false end), s).

Definition getcwd : M string := mret (M := M) cwd.

(** [os.makedirs(name, exist_ok=exist_ok)]; the recursion on [head] is
    bounded by [fuel], see [makedirs]. *)
Fixpoint makedirs_rec (fuel : nat) (name : string) (exist_ok : bool)
    : M unit :=
  match fuel with
  | O => raise (Exn RecursionError "maximum recursion depth exceeded")
  | S fuel' =>
      let '(head, tail) := split name in
      let '(head, tail) :=
        if Str.is_empty tail then split head else (head, tail) in
      done ←
        (if negb (Str.is_empty head) && negb (Str.is_empty tail) then
           present ← path_exists head;
           if (present : bool) then mret false
           else
             try_except (makedirs_rec fuel' head exist_ok)
               (λ e, match e with Exn FileExistsError _ => true | _ => false end)
               (λ _, mret tt);;
             mret (String.eqb tail ".")
         else mret false);
      if (done : bool) then mret tt
      else
        try_except (mkdir name) is_OSError
          (λ e, ok ← isdir name;
                if negb exist_ok || negb ok then raise e else mret tt)
  end.

(** Every recursive call is on a shorter string, so the length of [name]
    is fuel enough (lemma [makedirs_rec_fuel] below). *)
Definition makedirs (name : string) (exist_ok : bool) : M unit :=
  makedirs_rec (S (String.length name)) name exist_ok.

(** [ZipInfo.is_dir]: [self.filename[-1] == '/'] *)
Definition is_dir (member : ZipInfo) : M bool :=
  match ends_with_sep (filename member) with
  | None => raise (Exn IndexError "string index out of range")
  | Some d => mret d
  end.

(** [ZipFile.getinfo] *)
Definition getinfo (filelist : list ZipInfo) (name : string) : M ZipInfo :=
  match NameToInfo filelist name with
  | Some m => mret m
  | None =>
      raise (Exn KeyError
               ("There is no item named " +:+ repr name +:+ " in the archive"))
  end.

(** [ZipFile.namelist] *)
Definition namelist (filelist : list ZipInfo) : list string :=
  filename <$> filelist.

(** The path under which [ZipFile._extract_member] writes the member named
    [name] below [targetpath]: the empty, [.] and [..] components of the
    name are dropped, and the joined path is normalised. *)
Definition member_target (targetpath name : string) : string :=
  let arcname :=
    String.concat "/"
      (List.filter
         (λ x, negb (String.eqb x "" || String.eqb x "." || String.eqb x ".."))
         (Str.split name sep)) in
  normpath (join targetpath arcname).

(** [ZipFile._extract_member(member, targetpath, pwd)] for a member given
    by name. *)
Definition _extract_member (filelist : list ZipInfo) (name : string)
    (targetpath : string) : M string :=
  member ← getinfo filelist name;
  let targetpath := member_target targetpath (filename member) in
  let upperdirs := dirname targetpath in
  (if negb (Str.is_empty upperdirs) then
     present ← path_exists upperdirs;
     if (present : bool) then mret tt else makedirs upperdirs false
   else mret tt);;
  d ← is_dir member;
  if (d : bool) then
    (ok ← isdir targetpath;
     if (ok : bool) then mret tt else mkdir targetpath);;
    mret targetpath
  else
    write_file targetpath (file_data member);;
    mret targetpath.

Fixpoint extract_members (filelist : list ZipInfo) (members : list string)
    (path : string) : M unit :=
  match members with
  | [] => mret tt
  | zipinfo :: rest =>
      _extract_member filelist zipinfo path;;
      extract_members filelist rest path
  end.

(** [ZipFile.extractall(path)] *)
Definition extractall (filelist : list ZipInfo) (path : string) : M unit :=
  extract_members filelist (namelist filelist) path.

(** [zipfile.ZipFile(zip_path, "r")] *)
Definition ZipFile (zip_path : string) : M (list ZipInfo) :=
  content ← read_file zip_path;
  match decode content with
  | None => raise (open_error content)
  | Some filelist => mret filelist
  end.

(** ** The program *)

(** [extract(zip_path, output_dir)], lines 23-48. *)
Definition extract (zip_path : string) (output_dir : option string)
    : M unit :=
  if negb (Str.endswith zip_path ".zip") then
    raise (Exn ValueError ("Not a zip file: " +:+ zip_path))
  else
    present ← path_exists zip_path;
    if negb (present : bool) then
      raise (Exn FileNotFoundError ("Zip file not found: " +:+ zip_path))
    else
      let archive_name := (splitext (basename zip_path)).1 in
      output_dir ←
        match output_dir with
        | None => here ← getcwd; mret (join here archive_name)
        | Some d => mret d
        end;
      makedirs output_dir true;;
      archive ← ZipFile zip_path;
      extractall archive output_dir.

(** How [main] ends: it returns a code, an exception that no handler of
    [main] takes leaves it, or [parse_args] ends the process through
    [parser.exit] (a [SystemExit]). *)
Inductive ending : Type :=
| Returned (code : Z)
| Uncaught (e : exn)
| Exited (code : Z).

(** What a run of [main] leaves: how it ended, what it wrote on the two
    streams, and the file tree.  The traceback that the interpreter prints
    for an uncaught exception is written after [main] and is not recorded. *)
Record Run : Type :=
  { ended : ending; stdout : string; stderr : string; tree : fs }.

(** [main()], lines 77-98, with [sys.argv[1:]] given as [argv]. *)
Definition main (argv : list string) (s : fs) : Run :=
  let parser := _build_parser in
  match parse_args parser argv with
  | Help =>
      {| ended := Exited 0;
         stdout := format_help parser; stderr := ""; tree := s |}
  | Error message =>
      {| ended := Exited 2;
         stdout := "";
         stderr := format_usage parser +:+ prog parser +:+ ": error: "
                   +:+ message +:+ nl;
         tree := s |}
  | Namespace args =>
      match args !! "zippedfile" with
      | None =>
          {| ended :=
               Uncaught (Exn AttributeError
                           "'NoneType' object has no attribute 'endswith'");
             stdout := ""; stderr := ""; tree := s |}
      | Some zip_path =>
          let output := args !! "output" in
          match extract zip_path output s with
          | (Raise (Exn FileNotFoundError msg), s') =>
              {| ended := Returned 2;
                 stdout := ""; stderr := print "" msg; tree := s' |}
          | (Raise (Exn ValueError msg), s')
          | (Raise (Exn UnicodeDecodeError msg), s') =>
              {| ended := Returned 3;
                 stdout := ""; stderr := print "" msg; tree := s' |}
          | (Raise (Exn BadZipFile msg), s') =>
              {| ended := Returned 4;
                 stdout := "";
                 stderr := print "" ("Invalid zip file: " +:+ msg);
                 tree := s' |}
          | (Raise e, s') =>
              {| ended := Uncaught e; stdout := ""; stderr := ""; tree := s' |}
          | (Return _, s') =>
              {| ended := Returned 0;
                 stdout := print "" "Extracted successfully.";
                 stderr := ""; tree := s' |}
          end
      end
  end.

(** The status of the process that runs [raise SystemExit(main())]: the
    code that [main] returned or that [parser.exit] was given; an exception
    nobody caught ends the interpreter with status 1. *)
Definition exit_status (r : Run) : Z :=
  match ended r with
  | Returned code => code
  | Exited code => code
  | Uncaught _ => 1
  end.

End Program.

(** ** Sample data for the examples *)

Module Sample.

Definition b (text : string) : bytes := String.list_byte_of_string text.

Definition foo_zip : bytes := b "PK foo".
Definition self_zip : bytes := b "PK self".
Definition empty_zip : bytes := b "PK empty".
Definition odd_zip : bytes := b "PK odd".

(** The archive reader on the files of the examples: [foo_zip] holds the
    members [a.txt] and [dir/b.txt], [self_zip] holds one empty member named
    [a.zip], [empty_zip] holds no member, [odd_zip] holds a member with a
    [..] in its name, a directory member and two members of one name; any
    other content is not an archive. *)
Definition decode (content : bytes) : option (list ZipInfo) :=
  let text := String.string_of_list_byte content in
  if String.eqb text "PK foo" then
    Some [ {| filename := "a.txt"; file_data := b "A" |};
           {| filename := "dir/b.txt"; file_data := b "B" |} ]
  else if String.eqb text "PK self" then
    Some [ {| filename := "a.zip"; file_data := [] |} ]
  else if String.eqb text "PK empty" then Some []
  else if String.eqb text "PK odd" then
    Some [ {| filename := "../x"; file_data := b "X" |};
           {| filename := "d/"; file_data := [] |};
           {| filename := "d/y"; file_data := b "first" |};
           {| filename := "d/y"; file_data := b "second" |} ]
  else None.

(** What the reader raises on the files of the examples that it does not
    open: [badname_zip] holds a member name marked UTF-8 that is not,
    [future_zip] asks for a version of the format that the reader does not
    know; in any other file it finds no end of central directory. *)
Definition badname_zip : bytes := b "PK badname".
Definition future_zip : bytes := b "PK v9.9".

Definition open_error (content : bytes) : exn :=
  let text := String.string_of_list_byte content in
  if String.eqb text "PK badname" then
    Exn UnicodeDecodeError
      "'utf-8' codec can't decode byte 0xff in position 0: invalid start byte"
  else if String.eqb text "PK v9.9" then
    Exn NotImplementedError "zip file version 9.9"
  else Exn BadZipFile "File is not a zip file".

Definition cwd : string := "/home/u".

(** [/tmp/foo.zip], [/tmp/FOO.ZIP], [/tmp/.zip], [/tmp/empty.zip] and
    [/tmp/odd.zip] are archives, [/tmp/bad.zip] is not; [/out] holds a file
    and the archive [a.zip]; the working directory holds the file [f]. *)
Definition tree0 : fs :=
  {[ ["tmp"] := Dir;
     ["tmp"; "foo.zip"] := File foo_zip;
     ["tmp"; "FOO.ZIP"] := File foo_zip;
     ["tmp"; ".zip"] := File foo_zip;
     ["tmp"; "bad.zip"] := File (b "not an archive");
     ["tmp"; "empty.zip"] := File empty_zip;
     ["tmp"; "odd.zip"] := File odd_zip;
     ["home"] := Dir;
     ["home"; "u"] := Dir;
     ["home"; "u"; "f"] := File (b "f");
     ["out"] := Dir;
     ["out"; "old.txt"] := File (b "old");
     ["out"; "a.zip"] := File self_zip ]}.

End Sample.

(** * The vocabulary of the properties *)

(** The content of the regular file at a location. *)
Definition file_at (s : fs) (L : loc) : option bytes :=
  match s !! L with
  | Some (File content) => Some content
  | _ => None
  end.

Definition same_kind (n n' : node) : Prop :=
  match n, n' with
  | File _, File _ | Dir, Dir => True
  | _, _ => False
  end.

(** [s'] has every node of [s], of the same kind: directories and files are
    added, files are rewritten, nothing is removed. *)
Definition grows (s s' : fs) : Prop :=
  ∀ L n, s !! L = Some n → ∃ n', s' !! L = Some n' ∧ same_kind n n'.

(** [s'] is [s] with directories added. *)
Definition dirs_added (s s' : fs) : Prop :=
  s ⊆ s' ∧ ∀ L, file_at s' L = file_at s L.

(** A path that [open(p, "wb")] can create a file under: it ends with a
    name, not with a separator, [.] or [..]. *)
Definition writable (cwd p : string) : Prop :=
  Str.is_empty p = false
  ∧ ∃ init name, components cwd p = init ++ [name]
                 ∧ name ≠ "" ∧ is_dot name = false.

(** Whatever [m] does, it takes the tree to a tree related by [R]. *)
Definition preserves {A : Type} (R : fs → fs → Prop) (m : M A) : Prop :=
  ∀ s r s', m s = (r, s') → R s s'.

(** The head and tail that [os.makedirs] works with: those of [name], or of
    its head when [name] ends with a separator. *)
Definition makedirs_parts (name : string) : string * string :=
  if Str.is_empty (basename name) then (dirname (dirname name), basename (dirname name))
  else (dirname name, basename name).

(** The directory that [extract] creates and extracts into: [output_dir], or
    the value computed at lines 41-43. *)
Definition destination (cwd zip_path : string) (output_dir : option string)
    : string :=
  match output_dir with
  | Some d => d
  | None => join cwd (splitext (basename zip_path)).1
  end.

(** The claim's reading of the default: the working directory joined with
    the base name of the archive, without the [.zip] that the path ends
    with. *)
Definition default_destination_spec (cwd zip_path : string) : string :=
  let name := basename zip_path in
  join cwd (Str.take (String.length name - 4) name).

(** Some character of [s] is not [c]. *)
Fixpoint any_other (s : string) (c : ascii) : bool :=
  match s with
  | "" => false
  | String a r => negb (Ascii.eqb a c) || any_other r c
  end.

Definition newline : ascii := "010"%char.

(** [line] is one of the lines of [stream]. *)
Definition has_line (stream line : string) : bool :=
  existsb (String.eqb line) (Str.split stream newline).

(** [text] holds no line break. *)
Definition one_line (text : string) : Prop :=
  Str.contains text newline = false.

Definition exn_msg (e : exn) : string :=
  match e with Exn _ msg => msg end.

(** Every exception that [m] raises satisfies [P]. *)
Definition raises_only {A : Type} (P : exn → Prop) (m : M A) : Prop :=
  ∀ s e s', m s = (Raise e, s') → P e.

(** [s] and [s'] have the same nodes, of the same kinds: they differ in the
    content of files at most. *)
Definition same_shape (s s' : fs) : Prop := grows s s' ∧ grows s' s.

(** The member [m] is in place below [path]: a directory for a directory
    member, a file under a path that can be rewritten for another. *)
Definition member_done (cwd : string) (s : fs) (path : string) (m : ZipInfo)
    : Prop :=
  let t := member_target path (filename m) in
  (ends_with_sep (filename m) = Some true ∧ sys_stat cwd s t = inr Dir)
  ∨ (ends_with_sep (filename m) = Some false ∧ writable cwd t
     ∧ ∃ content, sys_stat cwd s t = inr (File content)).

Global Instance errno_eq_dec : EqDecision errno.
Proof. solve_decision. Defined.

(** What the extraction of the member named [name] writes: the target path
    and the bytes, for a member that is not a directory. *)
Definition write_of (path : string) (filelist : list ZipInfo) (name : string)
    : option (string * bytes) :=
  match NameToInfo filelist name with
  | Some m =>
      match ends_with_sep (filename m) with
      | Some false => Some (member_target path (filename m), file_data m)
      | _ => None
      end
  | None => None
  end.

(** The files that [extractall] writes, in order. *)
Definition writes (path : string) (filelist : list ZipInfo)
    (names : list string) : list (string * bytes) :=
  omap (write_of path filelist) names.



(** The sample tree with a directory named [/tmp/dir.zip]. *)
Definition tree_with_dir_zip : fs :=
  <[ ["tmp"; "dir.zip"] := Dir ]> Sample.tree0.

(** The sample tree with two files that the reader rejects otherwise than
    with [BadZipFile]. *)
Definition tree_with_rejects : fs :=
  <[ ["tmp"; "badname.zip"] := File Sample.badname_zip ]>
    (<[ ["tmp"; "future.zip"] := File Sample.future_zip ]> Sample.tree0).

(** The location that the resolution of [p] reaches when every directory on
    the way is there: the components of the path followed from the root,
    with no look at the tree. *)
Definition locate (cwd p : string) : loc :=
  fold_left step (components cwd p) [].

(** The components of a member name that [ZipFile._extract_member] keeps:
    not the empty ones, not [.] and not [..]. *)
Definition plain_components (name : string) : list string :=
  List.filter
    (λ x, negb (String.eqb x "" || String.eqb x "." || String.eqb x ".."))
    (Str.split name sep).

(** The file at [L], or the absence of a file there, is in [s'] what it was
    in [s]. *)
Definition kept_at (L : loc) (s s' : fs) : Prop := file_at s' L = file_at s L.

(** * Properties *)

#[local] Arguments String.eqb : simpl never.
#[local] Arguments Ascii.eqb : simpl never.
#[local] Arguments split : simpl never.
#[local] Arguments dirname : simpl never.
#[local] Arguments basename : simpl never.
#[local] Arguments splitext : simpl never.
#[local] Arguments normpath : simpl never.
#[local] Arguments join : simpl never.

(** ** Strings *)

Lemma str_app_cons a s t : String a s +:+ t = String a (s +:+ t).
Proof. reflexivity. Qed.

Lemma str_app_nil_r s : s +:+ "" = s.
Proof. induction s as [|a s IH]; [done|]. by rewrite str_app_cons, IH. Qed.

Lemma str_app_assoc s t u : (s +:+ t) +:+ u = s +:+ t +:+ u.
Proof. induction s as [|a s IH]; [done|]. by rewrite !str_app_cons, IH. Qed.

Lemma str_length_app s t :
  String.length (s +:+ t) = (String.length s + String.length t)%nat.
Proof. induction s as [|a s IH]; [done|]. rewrite str_app_cons. simpl. by rewrite IH. Qed.

Lemma endswith_length s suf :
  Str.endswith s suf = true → (String.length suf ≤ String.length s)%nat.
Proof.
  induction s as [|a s IH]; simpl.
  - rewrite orb_false_r. intros H%String.eqb_eq. by subst.
  - intros [H%String.eqb_eq | H]%orb_true_iff.
    + subst. simpl. lia.
    + specialize (IH H). lia.
Qed.

Lemma endswith_app stem suf : Str.endswith (stem +:+ suf) suf = true.
Proof.
  induction stem as [|a stem IH].
  - change ("" +:+ suf) with suf.
    destruct suf; [done|]. simpl. by rewrite String.eqb_refl.
  - change (String a stem +:+ suf) with (String a (stem +:+ suf)).
    simpl. rewrite IH. apply orb_true_r.
Qed.

(** A string that ends with [suf'], as long as [suf] and different from it,
    does not end with [suf]. *)
Lemma endswith_app_other stem suf suf' :
  String.length suf' = String.length suf → suf' ≠ suf →
  Str.endswith (stem +:+ suf') suf = false.
Proof.
  intros Hlen Hne. induction stem as [|a stem IH].
  - change ("" +:+ suf') with suf'.
    destruct (Str.endswith suf' suf) eqn:E; [|done].
    exfalso. destruct suf' as [|c r]; simpl in E.
    + rewrite orb_false_r in E. apply String.eqb_eq in E. by subst.
    + apply orb_true_iff in E as [E%String.eqb_eq | E]; [done|].
      apply endswith_length in E. simpl in Hlen. lia.
  - change (String a stem +:+ suf') with (String a (stem +:+ suf')).
    simpl. rewrite IH, orb_false_r.
    apply String.eqb_neq. intros Heq.
    assert (String.length (String a (stem +:+ suf')) = String.length suf)
      as Hl by (by rewrite Heq).
    simpl in Hl. rewrite str_length_app in Hl. lia.
Qed.

(** *** [rfind], slices and [split] *)

Lemma rfind_ge s c : -1 ≤ Str.rfind s c.
Proof.
  induction s as [|a s IH]; simpl; [lia|].
  destruct (0 <=? Str.rfind s c) eqn:E; [lia|].
  destruct (Ascii.eqb a c); lia.
Qed.

Lemma rfind_lt s c : Str.rfind s c < Z.of_nat (String.length s).
Proof.
  induction s as [|a s IH]; simpl; [lia|].
  destruct (0 <=? Str.rfind s c) eqn:E; [lia|].
  destruct (Ascii.eqb a c); lia.
Qed.

Lemma rfind_absent s c : Str.contains s c = false → Str.rfind s c = -1.
Proof.
  induction s as [|a s IH]; simpl; [done|].
  intros [Ha Hs]%orb_false_iff. rewrite (IH Hs), Ha. done.
Qed.

Lemma rfind_present s c : Str.contains s c = true → 0 ≤ Str.rfind s c.
Proof.
  induction s as [|a s IH]; simpl; [done|].
  destruct (0 <=? Str.rfind s c) eqn:E; [lia|].
  intros [Ha | Hs]%orb_true_iff.
  - rewrite Ha. lia.
  - specialize (IH Hs). lia.
Qed.

Lemma contains_app s t c :
  Str.contains (s +:+ t) c = Str.contains s c || Str.contains t c.
Proof.
  induction s as [|a s IH]; [done|].
  rewrite str_app_cons. simpl. by rewrite IH, orb_assoc.
Qed.

(** The last occurrence of [c] cuts [s] in two. *)
Lemma rfind_cut s c :
  Str.contains s c = true →
  ∃ a b, s = a +:+ String c b ∧ Str.contains b c = false
         ∧ Str.rfind s c = Z.of_nat (String.length a).
Proof.
  induction s as [|x s IH]; simpl; [done|].
  destruct (Str.contains s c) eqn:Hs.
  - intros _. destruct (IH eq_refl) as (a & b & -> & Hb & Hr).
    exists (String x a), b. rewrite Hr. split; [done|]. split; [done|].
    replace (0 <=? Z.of_nat (String.length a)) with true
      by (symmetry; apply Z.leb_le; lia).
    simpl String.length. lia.
  - rewrite orb_false_r. intros Hx. rewrite (rfind_absent _ _ Hs). simpl.
    rewrite Hx. apply Ascii.eqb_eq in Hx as ->.
    by exists "", s.
Qed.

Lemma take_app s t : Str.take (String.length s) (s +:+ t) = s.
Proof.
  induction s as [|a s IH]; [by destruct t|].
  rewrite str_app_cons. simpl. by rewrite IH.
Qed.

Lemma drop_app s t : Str.drop (String.length s) (s +:+ t) = t.
Proof.
  induction s as [|a s IH]; [by destruct t|].
  rewrite str_app_cons. simpl. by rewrite IH.
Qed.

Lemma take_0 s : Str.take 0 s = "".
Proof. by destruct s. Qed.

Lemma split_absent s c : Str.contains s c = false → Str.split s c = [s].
Proof.
  induction s as [|a s IH]; simpl; [done|].
  intros [Ha Hs]%orb_false_iff. by rewrite Ha, (IH Hs).
Qed.

Lemma split_nonempty s c : Str.split s c ≠ [].
Proof.
  induction s as [|a s IH]; simpl; [done|].
  destruct (Ascii.eqb a c); [done|]. by destruct (Str.split s c).
Qed.

Lemma split_app s t c :
  Str.split (s +:+ String c t) c = Str.split s c ++ Str.split t c.
Proof.
  induction s as [|a s IH].
  - change ("" +:+ String c t) with (String c t). simpl.
    by rewrite Ascii.eqb_refl.
  - rewrite str_app_cons. simpl. rewrite IH.
    destruct (Ascii.eqb a c); [done|].
    pose proof (split_nonempty s c). by destruct (Str.split s c).
Qed.

Lemma split_repeat c n : Str.split (Str.repeat c n) c = replicate (S n) "".
Proof.
  induction n as [|n IH]; simpl; [done|]. by rewrite Ascii.eqb_refl, IH.
Qed.

Lemma split_app_repeat s c n :
  Str.split (s +:+ Str.repeat c n) c = Str.split s c ++ replicate n "".
Proof.
  destruct n as [|n]; simpl.
  - by rewrite str_app_nil_r, List.app_nil_r.
  - by rewrite split_app, split_repeat.
Qed.

(** [rstrip] takes a run of [c] off the end. *)
Lemma rstrip_spec s c :
  ∃ n, s = Str.rstrip s c +:+ Str.repeat c n
       ∧ (Str.rstrip s c = "" ∨ Str.endswith (Str.rstrip s c) (String c "") = false).
Proof.
  induction s as [|a s (n & IH & Hend)]; simpl.
  - exists 0%nat. auto.
  - destruct (Str.rstrip s c) as [|b r] eqn:Hr.
    + destruct (Ascii.eqb a c) eqn:Ha.
      * apply Ascii.eqb_eq in Ha as ->. exists (S n).
        split; [|by left]. simpl. by rewrite IH at 1.
      * exists n. split; [by rewrite IH at 1|]. right.
        simpl. rewrite orb_false_r.
        apply String.eqb_neq. intros [= ->]. by rewrite Ascii.eqb_refl in Ha.
    + exists n. split; [by rewrite IH at 1|]. right.
      destruct Hend as [|Hend]; [done|].
      simpl. simpl in Hend. rewrite Hend, orb_false_r.
      apply String.eqb_neq. done.
Qed.

Lemma rstrip_all s c :
  Str.rstrip s c = "" → s = Str.repeat c (String.length s).
Proof.
  intros H. destruct (rstrip_spec s c) as (n & Hs & _).
  rewrite H in Hs. change ("" +:+ Str.repeat c n) with (Str.repeat c n) in Hs.
  rewrite Hs at 1. f_equal. rewrite Hs. clear.
  induction n; simpl; congruence.
Qed.

Lemma rstrip_repeat c n : Str.rstrip (Str.repeat c n) c = "".
Proof. induction n as [|n IH]; simpl; [done|]. by rewrite IH, Ascii.eqb_refl. Qed.

Lemma rstrip_app_repeat u c m :
  Str.endswith u (String c "") = false →
  Str.rstrip (u +:+ Str.repeat c m) c = u.
Proof.
  induction u as [|y u IH]; intros Hend; [apply rstrip_repeat|].
  rewrite str_app_cons. simpl.
  destruct u as [|z u].
  - change ("" +:+ Str.repeat c m) with (Str.repeat c m).
    rewrite rstrip_repeat.
    simpl in Hend. rewrite orb_false_r in Hend.
    destruct (Ascii.eqb y c) eqn:E; [|done].
    apply Ascii.eqb_eq in E as ->. by rewrite String.eqb_refl in Hend.
  - rewrite IH; [done|].
    simpl in Hend. by apply orb_false_iff in Hend as [_ Hend].
Qed.

(** *** [dirname] and [basename] *)

Lemma split_eq p : split p = (dirname p, basename p).
Proof. reflexivity. Qed.

Lemma repeat_app_sep c n t :
  Str.repeat c (S n) +:+ t = Str.repeat c n +:+ String c t.
Proof. induction n as [|n IH]; [done|]. simpl in *. by rewrite !str_app_cons, <- IH. Qed.

Lemma repeat_snoc c n : Str.repeat c n +:+ String c "" = Str.repeat c (S n).
Proof. by rewrite <- repeat_app_sep, str_app_nil_r. Qed.

Lemma length_repeat c n : String.length (Str.repeat c n) = n.
Proof. induction n; simpl; congruence. Qed.

(** How [posixpath.split] cuts a path: no separator; separators only before
    the last name; or a head, a run of separators and the last name. *)
Lemma dirname_cases p :
  (Str.contains p sep = false ∧ dirname p = "" ∧ basename p = p)
  ∨ (∃ j b, p = Str.repeat sep (S j) +:+ b ∧ Str.contains b sep = false
            ∧ dirname p = Str.repeat sep (S j) ∧ basename p = b)
  ∨ (∃ h k b, p = h +:+ Str.repeat sep (S k) +:+ b
              ∧ Str.contains b sep = false ∧ h ≠ ""
              ∧ Str.endswith h (String sep "") = false
              ∧ dirname p = h ∧ basename p = b).
Proof.
  destruct (Str.contains p sep) eqn:Hp.
  - right. destruct (rfind_cut _ _ Hp) as (a & b & -> & Hb & Hr).
    assert (Str.slice_to (a +:+ String sep b)
              (Str.rfind (a +:+ String sep b) sep + 1) = a +:+ String sep "")
      as Hhead.
    { rewrite Hr. unfold Str.slice_to.
      replace (Z.to_nat (Z.of_nat (String.length a) + 1))
        with (String.length (a +:+ String sep "")) by (rewrite str_length_app; simpl; lia).
      replace (a +:+ String sep b) with ((a +:+ String sep "") +:+ b)
        by (by rewrite str_app_assoc).
      apply take_app. }
    assert (basename (a +:+ String sep b) = b) as Hbase.
    { unfold basename. rewrite Hr. unfold Str.slice_from.
      replace (Z.to_nat (Z.of_nat (String.length a) + 1))
        with (String.length (a +:+ String sep "")) by (rewrite str_length_app; simpl; lia).
      replace (a +:+ String sep b) with ((a +:+ String sep "") +:+ b)
        by (by rewrite str_app_assoc).
      apply drop_app. }
    unfold dirname. rewrite Hhead, Hbase.
    destruct (rstrip_spec a sep) as (n & Ha & Hend).
    destruct (Str.rstrip a sep) as [|x h] eqn:Hstrip.
    + left. change ("" +:+ Str.repeat sep n) with (Str.repeat sep n) in Ha.
      subst a. exists n, b.
      rewrite repeat_snoc. split; [by rewrite repeat_app_sep|]. split; [done|].
      split; [|done].
      rewrite length_repeat, String.eqb_refl. by rewrite andb_false_r.
    + right. exists (String x h), n, b.
      split; [rewrite Ha at 1; by rewrite str_app_assoc, repeat_app_sep|].
      split; [done|]. split; [done|].
      destruct Hend as [|Hend]; [done|]. split; [done|]. split; [|done].
      assert (Str.rstrip (a +:+ String sep "") sep = String x h) as Hr'.
      { rewrite Ha at 1. rewrite str_app_assoc, repeat_snoc.
        by apply rstrip_app_repeat. }
      rewrite Hr'.
      destruct (a +:+ String sep "") as [|y r] eqn:E.
      { destruct a; discriminate. }
      simpl.
      destruct (String.eqb _ _) eqn:Hall; [|done].
      exfalso. apply String.eqb_eq in Hall.
      change (String sep (Str.repeat sep (String.length r)))
        with (Str.repeat sep (S (String.length r))) in Hall.
      rewrite Hall, rstrip_repeat in Hr'. done.
  - left. unfold dirname, basename. rewrite (rfind_absent _ _ Hp). simpl.
    unfold Str.slice_to, Str.slice_from. simpl. done.
Qed.

(** ** The file tree *)

Lemma same_kind_refl n : same_kind n n.
Proof. by destruct n. Qed.

Lemma same_kind_trans n1 n2 n3 :
  same_kind n1 n2 → same_kind n2 n3 → same_kind n1 n3.
Proof. by destruct n1, n2, n3. Qed.

Lemma grows_refl s : grows s s.
Proof. intros L n H. exists n. split; [done|apply same_kind_refl]. Qed.

Lemma grows_trans s1 s2 s3 : grows s1 s2 → grows s2 s3 → grows s1 s3.
Proof.
  intros H12 H23 L n H. destruct (H12 _ _ H) as (n2 & H2 & K2).
  destruct (H23 _ _ H2) as (n3 & H3 & K3).
  exists n3. split; [done|]. by eapply same_kind_trans.
Qed.

Lemma subseteq_grows (s s' : fs) : s ⊆ s' → grows s s'.
Proof.
  intros Hsub L n H. exists n. split; [|apply same_kind_refl].
  by eapply lookup_weaken.
Qed.

Lemma grows_dir s s' L :
  grows s s' → lookup_node s L = Some Dir → lookup_node s' L = Some Dir.
Proof.
  intros Hg. destruct L as [|c L]; [done|]. simpl. intros H.
  destruct (Hg _ _ H) as (n' & H' & K). by destruct n'.
Qed.

Lemma grows_insert_dir (s : fs) L : s !! L = None → grows s (<[L := Dir]> s).
Proof. intros H. apply subseteq_grows. by apply insert_subseteq. Qed.

Lemma grows_insert_file (s : fs) L content :
  (∀ n, s !! L = Some n → same_kind n (File content)) →
  grows s (<[L := File content]> s).
Proof.
  intros H L' n Hn. destruct (decide (L = L')) as [->|Hne].
  - exists (File content). rewrite lookup_insert_eq. split; [done|]. by apply H.
  - exists n. rewrite lookup_insert_ne by done. split; [done|apply same_kind_refl].
Qed.

(** *** Path resolution *)

Lemma walk_app s cur xs ys :
  walk s cur (xs ++ ys) =
    match walk s cur xs with
    | inl e => inl e
    | inr L => walk s L ys
    end.
Proof.
  revert cur. induction xs as [|x xs IH]; intros cur; simpl; [done|].
  by destruct (lookup_node s cur) as [[|]|].
Qed.

Lemma step_empty cur : step cur "" = cur.
Proof. reflexivity. Qed.

Lemma walk_empties s cur k L :
  walk s cur (replicate k "") = inr L → L = cur.
Proof.
  induction k as [|k IH]; simpl; [congruence|].
  destruct (lookup_node s cur) as [[|]|]; try done.
Qed.

Lemma walk_empties_dir s cur k :
  lookup_node s cur = Some Dir → walk s cur (replicate k "") = inr cur.
Proof.
  intros H. induction k as [|k IH]; simpl; [done|]. by rewrite H.
Qed.

(** A walk that goes on from [L] found a directory at [L]. *)
Lemma walk_cons_dir s cur c rest L :
  walk s cur (c :: rest) = inr L → lookup_node s cur = Some Dir.
Proof. simpl. by destruct (lookup_node s cur) as [[|]|]. Qed.

Lemma walk_mono s s' cur comps L :
  grows s s' → walk s cur comps = inr L → walk s' cur comps = inr L.
Proof.
  intros Hg. revert cur. induction comps as [|c comps IH]; intros cur; simpl; [done|].
  destruct (lookup_node s cur) as [[|]|] eqn:E; try done.
  rewrite (grows_dir _ _ _ Hg E). apply IH.
Qed.

Lemma rstrip_empty_spec comps :
  ∃ k, comps = rstrip_empty comps ++ replicate k ""
       ∧ (k = 0%nat ↔ length (rstrip_empty comps) = length comps)
       ∧ (rstrip_empty comps = [] ∨ List.last (rstrip_empty comps) "" ≠ "").
Proof.
  induction comps as [|c comps (k & IH & Hk & Hlast)]; simpl.
  - exists 0%nat. auto.
  - destruct (rstrip_empty comps) as [|d r] eqn:E.
    + destruct (String.eqb c "") eqn:Hc.
      * apply String.eqb_eq in Hc as ->. exists (S k).
        split; [simpl; by rewrite IH at 1|]. split; [|by left].
        simpl. split; [done|lia].
      * exists k. split; [by rewrite IH at 1|]. split.
        -- simpl in *. rewrite Hk. split; lia.
        -- right. simpl. by apply String.eqb_neq.
    + exists k. split; [by rewrite IH at 1|]. split.
      * simpl in *. rewrite Hk. split; lia.
      * right. destruct Hlast as [|Hlast]; [done|]. done.
Qed.

Section Tree.

Variable cwd : string.

Lemma startswith_app_nonempty h t pre :
  h ≠ "" → Str.startswith (h +:+ t) (String pre "") = Str.startswith h (String pre "").
Proof. destruct h as [|a h]; [done|]. intros _. rewrite str_app_cons. simpl. done. Qed.

(** The components of [p] are those of [dirname p], empty components, and
    [basename p]. *)
Lemma components_dirname p :
  dirname p ≠ "" →
  (∃ j, components cwd (dirname p) = replicate (S (S j)) ""
        ∧ components cwd p = replicate (S j) "" ++ [basename p])
  ∨ (∃ k, components cwd p
          = components cwd (dirname p) ++ replicate k "" ++ [basename p]).
Proof.
  intros Hd.
  destruct (dirname_cases p) as [(_ & H & _) | [(j & b & Hp & Hb & Hdir & Hbase)
    | (h & k & b & Hp & Hb & Hh & _ & Hdir & Hbase)]]; [done|..].
  - left. exists j. rewrite Hdir, Hbase. unfold components.
    assert (Str.startswith (Str.repeat sep (S j)) "/" = true) as Habs by done.
    rewrite Hp at 1. rewrite startswith_app_nonempty by done.
    rewrite Habs. split; [apply split_repeat|].
    rewrite Hp, repeat_app_sep, split_app, split_repeat, (split_absent _ _ Hb).
    done.
  - right. exists k. rewrite Hdir, Hbase. unfold components.
    rewrite Hp at 1. rewrite (startswith_app_nonempty _ _ _ Hh).
    assert (∀ pre, Str.split (pre +:+ p) sep
                   = Str.split (pre +:+ h) sep ++ replicate k "" ++ [b]) as Hsplit.
    { intros pre. rewrite Hp, repeat_app_sep.
      rewrite <- !str_app_assoc. rewrite split_app, (split_absent _ _ Hb).
      rewrite split_app_repeat. by rewrite <- List.app_assoc. }
    destruct (Str.startswith h "/").
    + apply (Hsplit "").
    + rewrite <- !str_app_assoc. apply Hsplit.
Qed.

(** Whatever exists lies in a directory: [dirname p] is one when [p] names
    something that exists. *)
Lemma stat_dirname s p n :
  sys_stat cwd s p = inr n → dirname p ≠ "" →
  sys_stat cwd s (dirname p) = inr Dir.
Proof.
  intros Hstat Hd. unfold sys_stat, resolve in *.
  destruct (Str.is_empty p) eqn:Hp; [done|].
  destruct (walk s [] (components cwd p)) as [e|L] eqn:Hw; [done|].
  assert (Str.is_empty (dirname p) = false) as -> by (by destruct (dirname p)).
  destruct (components_dirname p Hd) as [(j & Hc & _) | (k & Hc)].
  - rewrite Hc. by rewrite walk_empties_dir.
  - rewrite Hc, walk_app in Hw.
    destruct (walk s [] (components cwd (dirname p))) as [e|L'] eqn:Hw'; [done|].
    destruct k as [|k]; simpl in Hw;
      by destruct (lookup_node s L') as [[|]|].
Qed.

Lemma grows_lookup_node s s' L n :
  grows s s' → lookup_node s L = Some n →
  ∃ n', lookup_node s' L = Some n' ∧ same_kind n n'.
Proof.
  intros Hg. destruct L as [|c L]; simpl.
  - intros [= <-]. by exists Dir.
  - apply Hg.
Qed.

Lemma resolve_mono s s' p L :
  grows s s' → resolve cwd s p = inr L → resolve cwd s' p = inr L.
Proof.
  intros Hg. unfold resolve. destruct (Str.is_empty p); [done|].
  by apply walk_mono.
Qed.

Lemma sys_stat_mono s s' p n :
  grows s s' → sys_stat cwd s p = inr n →
  ∃ n', sys_stat cwd s' p = inr n' ∧ same_kind n n'.
Proof.
  intros Hg. unfold sys_stat.
  destruct (resolve cwd s p) as [e|L] eqn:Hr; [done|].
  rewrite (resolve_mono _ _ _ _ Hg Hr).
  destruct (lookup_node s L) as [m|] eqn:Hl; [|done].
  intros [= <-]. destruct (grows_lookup_node _ _ _ _ Hg Hl) as (n' & -> & K).
  by exists n'.
Qed.

Lemma sys_stat_subseteq (s s' : fs) p n :
  s ⊆ s' → sys_stat cwd s p = inr n → sys_stat cwd s' p = inr n.
Proof.
  intros Hsub. unfold sys_stat.
  destruct (resolve cwd s p) as [e|L] eqn:Hr; [done|].
  rewrite (resolve_mono _ _ _ _ (subseteq_grows _ _ Hsub) Hr).
  destruct L as [|c L]; [done|]. simpl.
  destruct (s !! (c :: L)) as [m|] eqn:Hl; [|done].
  by rewrite (lookup_weaken _ _ _ _ Hl Hsub).
Qed.


(** The shape of a path that [parent_of] accepts. *)
Lemma parent_of_inv s comps L name :
  comps ≠ [] → parent_of s comps = inr (L, name) →
  comps = removelast comps ++ [name]
  ∧ walk s [] (removelast comps) = inr L
  ∧ lookup_node s L = Some Dir.
Proof.
  intros Hne. unfold parent_of.
  destruct (walk s [] (removelast comps)) as [e|L'] eqn:Hw; [done|].
  destruct (lookup_node s L') as [[|]|] eqn:Hl; try done.
  intros [= <- <-]. split; [|done].
  by apply app_removelast_last.
Qed.

Lemma parent_of_mono s s' comps L name :
  grows s s' → parent_of s comps = inr (L, name) →
  parent_of s' comps = inr (L, name).
Proof.
  intros Hg. unfold parent_of.
  destruct (walk s [] (removelast comps)) as [e|L'] eqn:Hw; [done|].
  rewrite (walk_mono _ _ _ _ _ Hg Hw).
  destruct (lookup_node s L') as [[|]|] eqn:Hl; try done.
  by rewrite (grows_dir _ _ _ Hg Hl).
Qed.

Lemma step_name cur name :
  name ≠ "" → is_dot name = false → step cur name = cur ++ [name].
Proof.
  intros Hne Hdot. unfold step, is_dot in *.
  apply String.eqb_neq in Hne. rewrite Hne.
  apply orb_false_iff in Hdot as [-> ->]. done.
Qed.

(** The location that a path with the parent [L] and the last name [name]
    resolves to, once something is there. *)
Lemma resolve_child s p comps' k L name n :
  Str.is_empty p = false →
  components cwd p = comps' ++ replicate k "" →
  comps' = removelast comps' ++ [name] →
  name ≠ "" → is_dot name = false →
  walk s [] (removelast comps') = inr L →
  lookup_node s L = Some Dir →
  s !! (L ++ [name]) = Some n →
  (k = 0%nat ∨ n = Dir) →
  resolve cwd s p = inr (L ++ [name]).
Proof.
  intros Hp Hc Hcomps Hne Hdot Hw HL Hn Hk. unfold resolve. rewrite Hp, Hc.
  rewrite Hcomps, <- List.app_assoc, walk_app, Hw. simpl.
  rewrite HL, (step_name _ _ Hne Hdot).
  destruct Hk as [-> | ->]; [done|].
  apply walk_empties_dir. by destruct L.
Qed.

(** [mkdir] adds one directory, where nothing was, and [p] names it. *)
Lemma sys_mkdir_spec s p s' :
  sys_mkdir cwd s p = inr s' →
  ∃ L, s !! L = None ∧ s' = <[L := Dir]> s ∧ sys_stat cwd s' p = inr Dir.
Proof.
  unfold sys_mkdir. destruct (Str.is_empty p) eqn:Hp; [done|].
  destruct (rstrip_empty_spec (components cwd p)) as (k & Hc & _ & Hlast).
  destruct (rstrip_empty (components cwd p)) as [|c0 r0] eqn:Hcomps; [done|].
  remember (c0 :: r0) as comps' eqn:Hcs in *.
  assert (comps' ≠ []) as Hnil by (by subst comps').
  clear Hcs.
  destruct (parent_of s comps') as [e|[L name]] eqn:Hpar; [done|].
  destruct (parent_of_inv _ _ _ _ Hnil Hpar) as (Hsplit & Hw & HL).
  destruct (is_dot name) eqn:Hdot; [done|].
  destruct (s !! (L ++ [name])) eqn:Hnew; [done|].
  intros [= <-]. exists (L ++ [name]). split; [done|]. split; [done|].
  assert (name ≠ "") as Hne.
  { destruct Hlast as [|Hlast]; [done|].
    rewrite Hsplit, List.last_last in Hlast. done. }
  pose proof (grows_insert_dir s (L ++ [name]) Hnew) as Hg.
  unfold sys_stat.
  rewrite (resolve_child (<[L ++ [name] := Dir]> s) p comps' k L name Dir);
    try done.
  - destruct (L ++ [name]) eqn:E; [by destruct L|].
    simpl. by rewrite <- E, lookup_insert_eq.
  - by apply (walk_mono _ _ _ _ _ Hg).
  - by apply (grows_dir _ _ _ Hg).
  - by rewrite lookup_insert_eq.
  - by right.
Qed.

(** [mkdir] fails on a path that names something. *)
Lemma sys_mkdir_existing s p n :
  sys_stat cwd s p = inr n → ∃ e, sys_mkdir cwd s p = inl e.
Proof.
  unfold sys_stat, resolve, sys_mkdir.
  destruct (Str.is_empty p) eqn:Hp; [done|].
  destruct (rstrip_empty_spec (components cwd p)) as (k & Hc & _ & Hlast).
  destruct (walk s [] (components cwd p)) as [e|L1] eqn:Hwalk; [done|].
  destruct (lookup_node s L1) as [m|] eqn:Hl1; [|done]. intros _.
  destruct (rstrip_empty (components cwd p)) as [|c0 r0] eqn:Hcomps; [by eexists|].
  remember (c0 :: r0) as comps' eqn:Hcs in *.
  assert (comps' ≠ []) as Hnil by (by subst comps').
  clear Hcs.
  destruct (parent_of s comps') as [e|[L name]] eqn:Hpar; [by eexists|].
  destruct (parent_of_inv _ _ _ _ Hnil Hpar) as (Hsplit & Hw & HL).
  destruct (is_dot name) eqn:Hdot; [by eexists|].
  assert (name ≠ "") as Hne.
  { destruct Hlast as [|Hlast]; [done|].
    rewrite Hsplit, List.last_last in Hlast. done. }
  rewrite Hc, Hsplit, <- List.app_assoc, walk_app, Hw in Hwalk.
  simpl in Hwalk. rewrite HL, (step_name _ _ Hne Hdot) in Hwalk.
  apply walk_empties in Hwalk as ->.
  destruct (L ++ [name]) eqn:E; [by destruct L|].
  simpl in Hl1. rewrite Hl1. by eexists.
Qed.

Lemma rstrip_empty_snoc init name :
  name ≠ "" → rstrip_empty (init ++ [name]) = init ++ [name].
Proof.
  intros Hne. induction init as [|c init IH]; simpl.
  - apply String.eqb_neq in Hne. by rewrite Hne.
  - rewrite IH. destruct (init ++ [name]) eqn:E; [|done].
    by destruct init.
Qed.

(** [open(p, "wb")] and the copy write one file, over a file or where
    nothing was, and [p] names it. *)
Lemma sys_write_spec s p content s' :
  sys_write cwd s p content = inr s' →
  writable cwd p
  ∧ ∃ L, resolve cwd s' p = inr L
         ∧ sys_stat cwd s' p = inr (File content)
         ∧ s' = <[L := File content]> s
         ∧ (∀ n, s !! L = Some n → same_kind n (File content)).
Proof.
  unfold sys_write. destruct (Str.is_empty p) eqn:Hp; [done|].
  destruct (rstrip_empty_spec (components cwd p)) as (k & Hc & Hk & Hlast).
  destruct (rstrip_empty (components cwd p)) as [|c0 r0] eqn:Hcomps; [done|].
  remember (c0 :: r0) as comps' eqn:Hcs in *.
  assert (comps' ≠ []) as Hnil by (by subst comps').
  clear Hcs.
  destruct (parent_of s comps') as [e|[L name]] eqn:Hpar; [done|].
  destruct (is_dot name) eqn:Hdot; [done|].
  destruct (length comps' =? length (components cwd p))%nat eqn:Hlen; [|done].
  apply Nat.eqb_eq in Hlen. apply Hk in Hlen. subst k.
  simpl in Hc. rewrite List.app_nil_r in Hc.
  destruct (parent_of_inv _ _ _ _ Hnil Hpar) as (Hsplit & Hw & HL).
  assert (name ≠ "") as Hne.
  { destruct Hlast as [|Hlast]; [done|].
    rewrite Hsplit, List.last_last in Hlast. done. }
  simpl negb. cbv iota. intros Hs'.
  assert (s' = <[L ++ [name] := File content]> s
          ∧ ∀ n, s !! (L ++ [name]) = Some n → same_kind n (File content))
    as [-> Hold].
  { destruct (s !! (L ++ [name])) as [[c|]|]; [|done|].
    - injection Hs' as <-. split; [done|]. by intros n [= <-].
    - injection Hs' as <-. by split. }
  split.
  { split; [done|]. exists (removelast comps'), name. by rewrite Hc, <- Hsplit. }
  exists (L ++ [name]).
  pose proof (grows_insert_file s (L ++ [name]) content Hold) as Hg.
  assert (resolve cwd (<[L ++ [name] := File content]> s) p = inr (L ++ [name]))
    as Hres.
  { apply (resolve_child _ p comps' 0 L name (File content)); try done.
    - simpl. by rewrite List.app_nil_r.
    - by apply (walk_mono _ _ _ _ _ Hg).
    - by apply (grows_dir _ _ _ Hg).
    - by rewrite lookup_insert_eq.
    - by left. }
  split; [done|]. split; [|done].
  unfold sys_stat. rewrite Hres.
  destruct (L ++ [name]) as [|c1 r1] eqn:E; [by destruct L|].
  simpl. by rewrite lookup_insert_eq.
Qed.

(** Over a file that is there, [open(p, "wb")] succeeds and rewrites it. *)
Lemma sys_write_over t p old content :
  writable cwd p → sys_stat cwd t p = inr (File old) →
  ∃ L, resolve cwd t p = inr L ∧ t !! L = Some (File old)
       ∧ sys_write cwd t p content = inr (<[L := File content]> t).
Proof.
  intros (Hp & init & name & Hc & Hne & Hdot).
  unfold sys_stat, resolve, sys_write. rewrite Hp, Hc.
  rewrite (rstrip_empty_snoc _ _ Hne), walk_app.
  destruct (walk t [] init) as [e|L0] eqn:Hw; [done|]. simpl.
  destruct (lookup_node t L0) as [[|]|] eqn:HL0; try done.
  rewrite (step_name _ _ Hne Hdot).
  destruct (L0 ++ [name]) as [|c1 r1] eqn:E; [by destruct L0|].
  rewrite <- E. replace (lookup_node t (L0 ++ [name])) with (t !! (L0 ++ [name]))
    by (by rewrite E).
  destruct (t !! (L0 ++ [name])) as [n|] eqn:Hn; [|done].
  intros [= ->]. exists (L0 ++ [name]). split; [done|]. split; [done|].
  destruct (init ++ [name]) as [|c2 r2] eqn:E2; [by destruct init|].
  rewrite <- E2. unfold parent_of.
  rewrite removelast_last, Hw, HL0, List.last_last, Hdot.
  rewrite E2. cbn [length]. cbv iota. by rewrite Nat.eqb_refl, Hn.
Qed.

End Tree.

(** ** Computations and the order on trees *)

Section Preserves.

Variable R : fs → fs → Prop.
Hypothesis R_refl : ∀ s, R s s.
Hypothesis R_trans : ∀ s1 s2 s3, R s1 s2 → R s2 s3 → R s1 s3.

Lemma preserves_ret {A} (a : A) : preserves R (mret a).
Proof. intros s r s' [= _ <-]. apply R_refl. Qed.

Lemma preserves_raise {A} e : preserves R (raise (A := A) e).
Proof. intros s r s' [= _ <-]. apply R_refl. Qed.

Lemma preserves_bind {A B} (m : M A) (f : A → M B) :
  preserves R m → (∀ a, preserves R (f a)) → preserves R (m ≫= f).
Proof.
  intros Hm Hf s r s'. unfold mbind, M_bind.
  destruct (m s) as [[a|e] s1] eqn:E.
  - intros H. eapply R_trans; [by eapply Hm|by eapply Hf].
  - intros [= _ <-]. by eapply Hm.
Qed.

Lemma preserves_try_except {A} (m : M A) caught handler :
  preserves R m → (∀ e, preserves R (handler e)) →
  preserves R (try_except m caught handler).
Proof.
  intros Hm Hh s r s'. unfold try_except.
  destruct (m s) as [[a|e] s1] eqn:E.
  - intros [= _ <-]. by eapply Hm.
  - destruct (caught e).
    + intros H. eapply R_trans; [by eapply Hm|by eapply Hh].
    + intros [= _ <-]. by eapply Hm.
Qed.

Lemma preserves_read {A} (f : fs → result A) : preserves R (λ s, (f s, s)).
Proof. intros s r s' [= _ <-]. apply R_refl. Qed.

End Preserves.

Section Steps.

Variable cwd : string.

Lemma dirs_added_refl s : dirs_added s s.
Proof. by split. Qed.

Lemma dirs_added_trans s1 s2 s3 :
  dirs_added s1 s2 → dirs_added s2 s3 → dirs_added s1 s3.
Proof.
  intros [H12 F12] [H23 F23]. split; [by etrans|].
  intros L. by rewrite F23, F12.
Qed.

Lemma dirs_added_grows s s' : dirs_added s s' → grows s s'.
Proof. intros [H _]. by apply subseteq_grows. Qed.

Lemma dirs_added_insert (s : fs) L :
  s !! L = None → dirs_added s (<[L := Dir]> s).
Proof.
  intros H. split; [by apply insert_subseteq|].
  intros L'. unfold file_at. destruct (decide (L = L')) as [<-|Hne].
  - by rewrite lookup_insert_eq, H.
  - by rewrite lookup_insert_ne.
Qed.

Lemma mkdir_dirs_added p : preserves dirs_added (mkdir cwd p).
Proof.
  intros s r s'. unfold mkdir, os_call.
  destruct (sys_mkdir cwd s p) as [e|s1] eqn:E.
  - intros [= _ <-]. apply dirs_added_refl.
  - intros [= _ <-]. destruct (sys_mkdir_spec _ _ _ _ E) as (L & Hnone & -> & _).
    by apply dirs_added_insert.
Qed.

Lemma makedirs_rec_S fuel name exist_ok :
  makedirs_rec cwd (S fuel) name exist_ok =
    (done ←
       (if negb (Str.is_empty (makedirs_parts name).1)
           && negb (Str.is_empty (makedirs_parts name).2) then
          present ← path_exists cwd (makedirs_parts name).1;
          if (present : bool) then mret false
          else
            try_except (makedirs_rec cwd fuel (makedirs_parts name).1 exist_ok)
              (λ e, match e with Exn FileExistsError _ => true | _ => false end)
              (λ _, mret tt);;
            mret (String.eqb (makedirs_parts name).2 ".")
        else mret false);
     if (done : bool) then mret tt
     else
       try_except (mkdir cwd name) is_OSError
         (λ e, ok ← isdir cwd name;
               if negb exist_ok || negb ok then raise e else mret tt)).
Proof.
  unfold makedirs_parts. cbn [makedirs_rec]. rewrite split_eq.
  destruct (Str.is_empty (basename name)); [rewrite split_eq|]; reflexivity.
Qed.

Lemma length_dirname p :
  (String.length (dirname p) ≤ String.length p)%nat
  ∧ (dirname p ≠ "" → basename p ≠ "" →
     (String.length (dirname p) < String.length p)%nat).
Proof.
  destruct (dirname_cases p) as [(_ & -> & _) | [(j & b & Hp & _ & -> & ->)
    | (h & k & b & Hp & _ & _ & _ & -> & ->)]].
  - simpl. split; [lia|done].
  - rewrite Hp. rewrite str_length_app.
    split; [lia|]. intros _ Hb. destruct b; [done|]. simpl. lia.
  - rewrite Hp. rewrite !str_length_app, length_repeat. split; lia.
Qed.

(** The recursive call of [os.makedirs] is on a shorter string. *)
Lemma makedirs_parts_shorter name :
  Str.is_empty (makedirs_parts name).1 = false →
  Str.is_empty (makedirs_parts name).2 = false →
  (String.length (makedirs_parts name).1 < String.length name)%nat.
Proof.
  unfold makedirs_parts.
  destruct (Str.is_empty (basename name)) eqn:E; simpl; intros Hh Ht.
  - destruct (length_dirname (dirname name)) as [_ Hlt].
    destruct (length_dirname name) as [Hle _].
    assert (String.length (dirname (dirname name))
            < String.length (dirname name))%nat; [|lia].
    apply Hlt; intros H; by rewrite H in *.
  - destruct (length_dirname name) as [_ Hlt].
    apply Hlt; intros H; by rewrite H in *.
Qed.

(** Fuel beyond the length of [name] changes nothing: the recursion of
    [os.makedirs] ends by itself. *)
Lemma makedirs_rec_fuel fuel1 fuel2 name exist_ok :
  (String.length name < fuel1)%nat → (String.length name < fuel2)%nat →
  makedirs_rec cwd fuel1 name exist_ok = makedirs_rec cwd fuel2 name exist_ok.
Proof.
  revert fuel2 name. induction fuel1 as [|fuel1 IH]; intros fuel2 name H1 H2;
    [lia|].
  destruct fuel2 as [|fuel2]; [lia|].
  rewrite !makedirs_rec_S.
  destruct (Str.is_empty (makedirs_parts name).1) eqn:Hh; [done|].
  destruct (Str.is_empty (makedirs_parts name).2) eqn:Ht; [done|].
  pose proof (makedirs_parts_shorter name Hh Ht).
  rewrite (IH fuel2 (makedirs_parts name).1) by lia. done.
Qed.

(** [os.makedirs] only adds directories to the tree, whether it returns or
    raises. *)
Lemma makedirs_rec_dirs_added fuel name exist_ok :
  preserves dirs_added (makedirs_rec cwd fuel name exist_ok).
Proof.
  pose proof dirs_added_refl as Hr. pose proof dirs_added_trans as Ht.
  revert name. induction fuel as [|fuel IH]; intros name.
  - by apply preserves_raise.
  - rewrite makedirs_rec_S.
    apply preserves_bind; [done| |].
    + destruct (negb _ && negb _); [|by apply preserves_ret].
      apply preserves_bind; [done|by apply preserves_read|].
      intros [|]; [by apply preserves_ret|].
      apply preserves_bind; [done| |intros; by apply preserves_ret].
      apply preserves_try_except; [done|apply IH|].
      intros; by apply preserves_ret.
    + intros [|]; [by apply preserves_ret|].
      apply preserves_try_except; [done|apply mkdir_dirs_added|].
      intros e. apply preserves_bind; [done|by apply preserves_read|].
      intros ok. destruct (negb exist_ok || negb ok);
        [by apply preserves_raise|by apply preserves_ret].
Qed.

Lemma makedirs_subseteq name exist_ok s r s' :
  makedirs cwd name exist_ok s = (r, s') → s ⊆ s'.
Proof. intros H. by apply (makedirs_rec_dirs_added _ _ _ _ _ _ H). Qed.

(** [os.makedirs(name, exist_ok=True)] leaves the tree as it is when [name]
    is a directory already. *)
Lemma makedirs_existing name s :
  sys_stat cwd s name = inr Dir →
  makedirs cwd name true s = (Return tt, s).
Proof.
  intros Hdir. unfold makedirs. rewrite makedirs_rec_S.
  assert (Str.is_empty (makedirs_parts name).1 = false →
          sys_stat cwd s (makedirs_parts name).1 = inr Dir) as Hhead.
  { unfold makedirs_parts. intros Hne.
    destruct (Str.is_empty (basename name)); simpl in *.
    - assert (dirname (dirname name) ≠ "") as H2 by (by intros H; rewrite H in Hne).
      assert (dirname name ≠ "") as H1 by (by intros H; rewrite H in H2).
      eapply stat_dirname; [|done]. by eapply stat_dirname.
    - eapply stat_dirname; [done|]. by intros H; rewrite H in Hne. }
  destruct (sys_mkdir_existing _ _ _ _ Hdir) as [e He].
  assert (try_except (mkdir cwd name) is_OSError
            (λ e0, isdir cwd name ≫= λ ok : bool,
                   if negb true || negb ok then raise e0 else mret ()) s
          = (Return tt, s)) as Hmk.
  { unfold try_except, mkdir, os_call. rewrite He.
    replace (is_OSError (os_error e name)) with true by (by destruct e).
    unfold mbind, M_bind, isdir. by rewrite Hdir. }
  unfold mbind at 1. unfold M_bind at 1.
  destruct (Str.is_empty (makedirs_parts name).1) eqn:Hh; simpl; [exact Hmk|].
  destruct (Str.is_empty (makedirs_parts name).2) eqn:Ht; simpl; [exact Hmk|].
  unfold mbind at 1. unfold M_bind at 1. unfold path_exists at 1.
  rewrite (Hhead eq_refl). simpl. exact Hmk.
Qed.

End Steps.

(** ** The checks of [extract] and the codes of [main] *)

Section Checks.

Variable cwd : string.
Variable decode : bytes → option (list ZipInfo).
Variable open_error : bytes → exn.

(** What [main] does once [parse_args] has returned a namespace. *)
Lemma main_parsed argv args zip_path s :
  parse_args _build_parser argv = Namespace args →
  args !! "zippedfile" = Some zip_path →
  main cwd decode open_error argv s =
    match extract cwd decode open_error zip_path (args !! "output") s with
    | (Raise (Exn FileNotFoundError msg), s') =>
        {| ended := Returned 2;
           stdout := ""; stderr := print "" msg; tree := s' |}
    | (Raise (Exn ValueError msg), s')
    | (Raise (Exn UnicodeDecodeError msg), s') =>
        {| ended := Returned 3;
           stdout := ""; stderr := print "" msg; tree := s' |}
    | (Raise (Exn BadZipFile msg), s') =>
        {| ended := Returned 4;
           stdout := "";
           stderr := print "" ("Invalid zip file: " +:+ msg);
           tree := s' |}
    | (Raise e, s') =>
        {| ended := Uncaught e; stdout := ""; stderr := ""; tree := s' |}
    | (Return _, s') =>
        {| ended := Returned 0;
           stdout := print "" "Extracted successfully.";
           stderr := ""; tree := s' |}
    end.
Proof. intros Hparse Hzip. unfold main. by rewrite Hparse, Hzip. Qed.

Lemma extract_bad_suffix zip_path output_dir s :
  Str.endswith zip_path ".zip" = false →
  extract cwd decode open_error zip_path output_dir s
  = (Raise (Exn ValueError ("Not a zip file: " +:+ zip_path)), s).
Proof. intros H. unfold extract. by rewrite H. Qed.

Lemma extract_missing zip_path output_dir s e :
  Str.endswith zip_path ".zip" = true →
  sys_stat cwd s zip_path = inl e →
  extract cwd decode open_error zip_path output_dir s
  = (Raise (Exn FileNotFoundError ("Zip file not found: " +:+ zip_path)), s).
Proof.
  intros Hsuf Hstat. unfold extract. rewrite Hsuf. simpl.
  unfold mbind, M_bind, path_exists. by rewrite Hstat.
Qed.

(** C2: a path that does not end with [.zip] makes [extract] raise
    [ValueError] with the tree untouched, and [main] return 3 (the exit code
    of the process) with the tree untouched. *)
Theorem extract_rejects_other_suffix zip_path output_dir s :
  Str.endswith zip_path ".zip" = false →
  extract cwd decode open_error zip_path output_dir s
  = (Raise (Exn ValueError ("Not a zip file: " +:+ zip_path)), s)
  ∧ ∀ argv args,
      parse_args _build_parser argv = Namespace args →
      args !! "zippedfile" = Some zip_path →
      ended (main cwd decode open_error argv s) = Returned 3
      ∧ exit_status (main cwd decode open_error argv s) = 3
      ∧ tree (main cwd decode open_error argv s) = s.
Proof.
  intros H. split; [by apply extract_bad_suffix|].
  intros argv args Hparse Hzip.
  rewrite (main_parsed _ _ _ _ Hparse Hzip).
  by rewrite (extract_bad_suffix _ _ _ H).
Qed.

(** C3: a path that ends with [.zip] and names nothing that exists makes
    [extract] raise [FileNotFoundError] with the tree untouched, and [main]
    return 2 with the tree untouched. *)
Theorem extract_reports_missing_archive zip_path output_dir s e :
  Str.endswith zip_path ".zip" = true →
  sys_stat cwd s zip_path = inl e →
  extract cwd decode open_error zip_path output_dir s
  = (Raise (Exn FileNotFoundError ("Zip file not found: " +:+ zip_path)), s)
  ∧ ∀ argv args,
      parse_args _build_parser argv = Namespace args →
      args !! "zippedfile" = Some zip_path →
      ended (main cwd decode open_error argv s) = Returned 2
      ∧ exit_status (main cwd decode open_error argv s) = 2
      ∧ tree (main cwd decode open_error argv s) = s.
Proof.
  intros Hsuf Hstat. split; [by eapply extract_missing|].
  intros argv args Hparse Hzip.
  rewrite (main_parsed _ _ _ _ Hparse Hzip).
  by rewrite (extract_missing _ _ _ _ Hsuf Hstat).
Qed.

(** C9: the suffix is checked before the existence: a path that neither ends
    with [.zip] nor names anything that exists raises [ValueError], not
    [FileNotFoundError], and [main] returns 3, not 2. *)
Theorem suffix_check_comes_first zip_path output_dir s e :
  Str.endswith zip_path ".zip" = false →
  sys_stat cwd s zip_path = inl e →
  (∃ msg, extract cwd decode open_error zip_path output_dir s
          = (Raise (Exn ValueError msg), s))
  ∧ (∀ msg s', extract cwd decode open_error zip_path output_dir s
               ≠ (Raise (Exn FileNotFoundError msg), s'))
  ∧ ∀ argv args,
      parse_args _build_parser argv = Namespace args →
      args !! "zippedfile" = Some zip_path →
      exit_status (main cwd decode open_error argv s) = 3
      ∧ exit_status (main cwd decode open_error argv s) ≠ 2.
Proof.
  intros Hsuf _. split; [|split].
  - eexists. by apply extract_bad_suffix.
  - intros msg s'. by rewrite (extract_bad_suffix _ _ _ Hsuf).
  - intros argv args Hparse Hzip.
    rewrite (main_parsed _ _ _ _ Hparse Hzip).
    by rewrite (extract_bad_suffix _ _ _ Hsuf).
Qed.

(** C10: the suffix test tells upper case from lower case: a path whose last
    four characters read [.zip] in another casing raises [ValueError] and
    nothing is extracted, also when it names a file that is a valid
    archive. *)
Theorem suffix_check_is_case_sensitive stem suffix output_dir s content filelist :
  String.length suffix = 4%nat →
  Str.lower suffix = ".zip" →
  suffix ≠ ".zip" →
  sys_read cwd s (stem +:+ suffix) = inr content →
  decode content = Some filelist →
  extract cwd decode open_error (stem +:+ suffix) output_dir s
  = (Raise (Exn ValueError ("Not a zip file: " +:+ stem +:+ suffix)), s).
Proof.
  intros Hlen _ Hne _ _. apply extract_bad_suffix.
  by apply endswith_app_other.
Qed.

End Checks.

Lemma extract_rejects_other_suffix_witness :
  extract Sample.cwd Sample.decode Sample.open_error "/tmp/notes.txt" None Sample.tree0
  = (Raise (Exn ValueError "Not a zip file: /tmp/notes.txt"), Sample.tree0)
  ∧ exit_status (main Sample.cwd Sample.decode Sample.open_error ["-l"; "/tmp/notes.txt"]
                   Sample.tree0) = 3.
Proof.
  destruct (extract_rejects_other_suffix Sample.cwd Sample.decode Sample.open_error
              "/tmp/notes.txt" None Sample.tree0 eq_refl) as [H1 H2].
  split; [exact H1|].
  apply (H2 ["-l"; "/tmp/notes.txt"] {[ "zippedfile" := "/tmp/notes.txt" ]});
    reflexivity.
Defined.

Lemma extract_reports_missing_archive_witness :
  extract Sample.cwd Sample.decode Sample.open_error "/tmp/gone.zip" None Sample.tree0
  = (Raise (Exn FileNotFoundError "Zip file not found: /tmp/gone.zip"),
     Sample.tree0)
  ∧ exit_status (main Sample.cwd Sample.decode Sample.open_error ["-l"; "/tmp/gone.zip"]
                   Sample.tree0) = 2.
Proof.
  destruct (extract_reports_missing_archive Sample.cwd Sample.decode Sample.open_error
              "/tmp/gone.zip" None Sample.tree0 ENOENT eq_refl eq_refl)
    as [H1 H2].
  split; [exact H1|].
  apply (H2 ["-l"; "/tmp/gone.zip"] {[ "zippedfile" := "/tmp/gone.zip" ]});
    reflexivity.
Defined.

Lemma suffix_check_comes_first_witness :
  exit_status (main Sample.cwd Sample.decode Sample.open_error ["-l"; "/tmp/gone.txt"]
                 Sample.tree0) = 3.
Proof.
  destruct (suffix_check_comes_first Sample.cwd Sample.decode Sample.open_error
              "/tmp/gone.txt" None Sample.tree0 ENOENT eq_refl eq_refl)
    as (_ & _ & H).
  apply (H ["-l"; "/tmp/gone.txt"] {[ "zippedfile" := "/tmp/gone.txt" ]});
    reflexivity.
Defined.

Lemma suffix_check_is_case_sensitive_witness :
  extract Sample.cwd Sample.decode Sample.open_error "/tmp/FOO.ZIP" None Sample.tree0
  = (Raise (Exn ValueError "Not a zip file: /tmp/FOO.ZIP"), Sample.tree0).
Proof.
  apply (suffix_check_is_case_sensitive Sample.cwd Sample.decode Sample.open_error
           "/tmp/FOO" ".ZIP" None Sample.tree0 Sample.foo_zip
           [ {| filename := "a.txt"; file_data := Sample.b "A" |};
             {| filename := "dir/b.txt"; file_data := Sample.b "B" |} ]);
    [reflexivity | reflexivity | discriminate | reflexivity | reflexivity].
Defined.



(** ** The destination directory *)

Section Destination.

Variable cwd : string.
Variable decode : bytes → option (list ZipInfo).
Variable open_error : bytes → exn.

(** [extract] past its two checks. *)
Lemma extract_run zip_path output_dir s n :
  Str.endswith zip_path ".zip" = true →
  sys_stat cwd s zip_path = inr n →
  extract cwd decode open_error zip_path output_dir s =
    (makedirs cwd (destination cwd zip_path output_dir) true;;
     archive ← ZipFile cwd decode open_error zip_path;
     extractall cwd archive (destination cwd zip_path output_dir)) s.
Proof.
  intros Hsuf Hstat. unfold extract. rewrite Hsuf. cbn [negb].
  unfold mbind, M_bind, path_exists. rewrite Hstat. cbn [negb].
  by destruct output_dir.
Qed.

Lemma sys_read_stat s p content :
  sys_read cwd s p = inr content → sys_stat cwd s p = inr (File content).
Proof.
  unfold sys_read. destruct (sys_stat cwd s p) as [e|[c|]]; congruence.
Qed.



End Destination.



(** A file for a version of the format that the reader does not know: the
    [NotImplementedError] of the reader has no handler in [main]. *)
Example reader_rejects_version :
  ended (main Sample.cwd Sample.decode Sample.open_error
           ["-l"; "/tmp/future.zip"] tree_with_rejects)
  = Uncaught (Exn NotImplementedError "zip file version 9.9").
Proof. reflexivity. Qed.

(** *** The default destination *)

Lemma rfind_app a c t :
  Str.contains t c = false →
  Str.rfind (a +:+ String c t) c = Z.of_nat (String.length a).
Proof.
  intros Ht. induction a as [|x a IH].
  - change ("" +:+ String c t) with (String c t). simpl.
    by rewrite (rfind_absent _ _ Ht), Ascii.eqb_refl.
  - rewrite str_app_cons. simpl Str.rfind. rewrite IH.
    replace (0 <=? Z.of_nat (String.length a)) with true
      by (symmetry; apply Z.leb_le; lia).
    simpl String.length. lia.
Qed.

Lemma basename_no_sep p : Str.contains (basename p) sep = false.
Proof.
  destruct (dirname_cases p) as [(H & _ & ->) | [(j & b & _ & Hb & _ & ->)
    | (h & k & b & _ & Hb & _ & _ & _ & ->)]]; done.
Qed.

Lemma other_than_dot_shift a r i n :
  0 ≤ i → other_than_dot (String a r) (i + 1) n = other_than_dot r i n.
Proof.
  revert i. induction n as [|n IH]; intros i Hi; simpl; [done|].
  rewrite (IH (i + 1)) by lia.
  replace (Str.slice (String a r) (i + 1) (i + 1 + 1))
    with (Str.slice r i (i + 1)); [done|].
  unfold Str.slice, Str.slice_to, Str.slice_from.
  replace (Z.to_nat (i + 1 + 1)) with (S (Z.to_nat (i + 1))) by lia.
  replace (Z.to_nat (i + 1)) with (S (Z.to_nat i)) at 2 by lia.
  done.
Qed.

Lemma other_than_dot_prefix stem t :
  other_than_dot (stem +:+ t) 0 (String.length stem) = any_other stem extsep.
Proof.
  induction stem as [|a stem IH]; [done|].
  rewrite str_app_cons. simpl.
  unfold Str.slice, Str.slice_to, Str.slice_from. simpl.
  rewrite (other_than_dot_shift a (stem +:+ t) 0) by lia. rewrite IH.
  destruct (Ascii.eqb a extsep) eqn:E.
  - apply Ascii.eqb_eq in E as ->. by rewrite String.eqb_refl.
  - replace (String.eqb (String a "") (String extsep "")) with false; [done|].
    symmetry. apply String.eqb_neq. intros [= ->]. by rewrite Ascii.eqb_refl in E.
Qed.

(** [splitext] takes the [.zip] off a file name that has a character other
    than a dot before it. *)
Lemma splitext_zip stem :
  Str.contains stem sep = false → any_other stem extsep = true →
  splitext (stem +:+ ".zip") = (stem, ".zip").
Proof.
  intros Hsep Hother. unfold splitext.
  assert (Str.rfind (stem +:+ ".zip") sep = -1) as ->.
  { apply rfind_absent. by rewrite contains_app, Hsep. }
  assert (Str.rfind (stem +:+ ".zip") extsep = Z.of_nat (String.length stem)) as ->.
  { by apply (rfind_app stem extsep "zip"). }
  replace (-1 <? Z.of_nat (String.length stem)) with true
    by (symmetry; apply Z.ltb_lt; lia).
  replace (Z.to_nat (Z.of_nat (String.length stem) - (-1 + 1)))
    with (String.length stem) by lia.
  change (-1 + 1) with 0. rewrite other_than_dot_prefix, Hother.
  unfold Str.slice_to, Str.slice_from. rewrite Nat2Z.id.
  by rewrite take_app, drop_app.
Qed.

(** Where the code and the claim agree: for a base name with a character
    other than a dot before its [.zip], the default destination is the
    working directory joined with the base name without the [.zip]. *)
Lemma default_destination_stem cwd zip_path stem :
  basename zip_path = stem +:+ ".zip" →
  any_other stem extsep = true →
  destination cwd zip_path None = join cwd stem
  ∧ default_destination_spec cwd zip_path = join cwd stem.
Proof.
  intros Hbase Hother. unfold destination, default_destination_spec.
  rewrite Hbase. rewrite splitext_zip; [|
    pose proof (basename_no_sep zip_path) as H; rewrite Hbase, contains_app in H;
    by apply orb_false_iff in H as [H _] | done].
  split; [done|]. rewrite str_length_app. simpl String.length.
  replace (String.length stem + 4 - 4)%nat with (String.length stem) by lia.
  by rewrite take_app.
Qed.

Lemma join_relative cwd name :
  Str.startswith name "/" = false →
  join cwd name
  = if Str.is_empty cwd || Str.endswith cwd "/" then cwd +:+ name
    else cwd +:+ "/" +:+ name.
Proof. intros H. unfold join. by rewrite H. Qed.

(** C5 on the archive [/tmp/.zip]: the code keeps the whole base name,
    [splitext] taking the leading dot for part of the name, where the claim
    (and the docstring of [extract]) take the [.zip] off; the two
    destinations differ, in every working directory. *)
Theorem default_destination_dot_zip cwd :
  destination cwd "/tmp/.zip" None = join cwd ".zip"
  ∧ default_destination_spec cwd "/tmp/.zip" = join cwd ""
  ∧ destination cwd "/tmp/.zip" None ≠ default_destination_spec cwd "/tmp/.zip".
Proof.
  assert (destination cwd "/tmp/.zip" None = join cwd ".zip") as H1 by done.
  assert (default_destination_spec cwd "/tmp/.zip" = join cwd "") as H2 by done.
  split; [done|]. split; [done|]. rewrite H1, H2.
  rewrite !join_relative by done.
  intros H%(f_equal String.length).
  destruct (Str.is_empty cwd || Str.endswith cwd "/");
    rewrite !str_length_app in H; simpl in H; lia.
Qed.

(** The same, seen on the tree: extracting [/tmp/.zip] with no output
    directory makes the directory [.zip] in the working directory; run in
    [/tmp], where the archive is, the destination is the archive itself and
    [os.makedirs] raises [FileExistsError].  The archive [/tmp/foo.zip] goes
    to [foo] in the working directory. *)
Example extract_dot_zip :
  (extract Sample.cwd Sample.decode Sample.open_error "/tmp/.zip" None Sample.tree0).2
    !! ["home"; "u"; ".zip"] = Some Dir
  ∧ (extract "/tmp" Sample.decode Sample.open_error "/tmp/.zip" None Sample.tree0).1
    = Raise (Exn FileExistsError "[Errno 17] File exists: '/tmp/.zip'")
  ∧ destination Sample.cwd "/tmp/foo.zip" None = "/home/u/foo".
Proof. repeat split. Qed.

(** ** What [main] writes *)

Lemma one_line_app a b : one_line a → one_line b → one_line (a +:+ b).
Proof. unfold one_line. intros Ha Hb. by rewrite contains_app, Ha, Hb. Qed.

Lemma repr_char_one_line quote c :
  quote = "'"%char ∨ quote = "034"%char → one_line (repr_char quote c).
Proof.
  intros [-> | ->]; destruct c as [[] [] [] [] [] [] [] []]; reflexivity.
Qed.

Lemma repr_one_line s : one_line (repr s).
Proof.
  unfold repr.
  generalize (Str.contains s "'" && negb (Str.contains s "034")).
  intros b. set (quote := if b then "034"%char else "'"%char).
  assert (quote = "'"%char ∨ quote = "034"%char) as Hq.
  { unfold quote. destruct b; auto. }
  assert (one_line (repr_body quote s)) as Hbody.
  { induction s as [|c s IH]; [done|]. simpl.
    apply one_line_app; [by apply repr_char_one_line|done]. }
  change (String quote (repr_body quote s))
    with (String quote "" +:+ repr_body quote s).
  repeat apply one_line_app; try done; by destruct Hq as [-> | ->].
Qed.

Lemma os_error_one_line e p : one_line (exn_msg (os_error e p)).
Proof.
  unfold os_error. simpl.
  apply one_line_app; [by destruct e|].
  apply one_line_app; [done|apply repr_one_line].
Qed.

Section Raises.

Variable P : exn → Prop.

Lemma raises_ret {A} (a : A) : raises_only P (mret a).
Proof. by intros s e s'. Qed.

Lemma raises_raise {A} e : P e → raises_only P (raise (A := A) e).
Proof. by intros H s e' s' [= <- _]. Qed.

Lemma raises_bind {A B} (m : M A) (f : A → M B) :
  raises_only P m → (∀ a, raises_only P (f a)) → raises_only P (m ≫= f).
Proof.
  intros Hm Hf s e s'. unfold mbind, M_bind.
  destruct (m s) as [[a|e1] s1] eqn:E.
  - by apply Hf.
  - intros [= <- _]. by eapply Hm.
Qed.

Lemma raises_try_except {A} (m : M A) caught handler :
  raises_only P m → (∀ e, P e → raises_only P (handler e)) →
  raises_only P (try_except m caught handler).
Proof.
  intros Hm Hh s e s'. unfold try_except.
  destruct (m s) as [[a|e1] s1] eqn:E; [done|].
  destruct (caught e1).
  - apply Hh. by eapply Hm.
  - intros [= <- _]. by eapply Hm.
Qed.

Lemma raises_read {A} (f : fs → A) : raises_only P (λ s, (Return (f s), s)).
Proof. by intros s e s'. Qed.

End Raises.

Section Messages.

Variable cwd : string.
Variable decode : bytes → option (list ZipInfo).
Variable open_error : bytes → exn.

Abbreviation clean := (raises_only (λ e, one_line (exn_msg e))).

Lemma os_call_clean r p : clean (os_call r p).
Proof.
  intros s e s'. unfold os_call. destruct (r s); [|done].
  intros [= <- _]. apply os_error_one_line.
Qed.

Lemma makedirs_rec_clean fuel name exist_ok :
  clean (makedirs_rec cwd fuel name exist_ok).
Proof.
  revert name. induction fuel as [|fuel IH]; intros name.
  - by apply raises_raise.
  - rewrite makedirs_rec_S. apply raises_bind.
    + destruct (negb _ && negb _); [|apply raises_ret].
      apply raises_bind; [apply (raises_read _ (λ s, _))|].
      intros [|]; [apply raises_ret|].
      apply raises_bind; [|intros; apply raises_ret].
      apply raises_try_except; [apply IH|intros; apply raises_ret].
    + intros [|]; [apply raises_ret|].
      apply raises_try_except; [apply os_call_clean|].
      intros e He. apply raises_bind; [apply (raises_read _ (λ s, _))|].
      intros ok. destruct (negb exist_ok || negb ok);
        [by apply raises_raise|apply raises_ret].
Qed.

Lemma extract_member_clean filelist name path :
  clean (_extract_member cwd filelist name path).
Proof.
  unfold _extract_member. apply raises_bind.
  - unfold getinfo. destruct (NameToInfo _ _); [apply raises_ret|].
    apply raises_raise. simpl.
    apply one_line_app; [done|].
    apply one_line_app; [apply repr_one_line|done].
  - intros member. apply raises_bind.
    + destruct (negb _); [|apply raises_ret].
      apply raises_bind; [apply (raises_read _ (λ s, _))|].
      intros [|]; [apply raises_ret|apply makedirs_rec_clean].
    + intros _. apply raises_bind.
      * unfold is_dir. destruct (ends_with_sep _);
          [apply raises_ret|by apply raises_raise].
      * intros [|].
        -- apply raises_bind; [|intros; apply raises_ret].
           apply raises_bind; [apply (raises_read _ (λ s, _))|].
           intros [|]; [apply raises_ret|apply os_call_clean].
        -- apply raises_bind; [apply os_call_clean|intros; apply raises_ret].
Qed.

Lemma extract_members_clean filelist members path :
  clean (extract_members cwd filelist members path).
Proof.
  induction members as [|m members IH]; simpl; [apply raises_ret|].
  apply raises_bind; [apply extract_member_clean|done].
Qed.

(** The exceptions of [extract] carry a message of one line, as long as the
    archive path has no line break and the messages of the reader have
    none. *)
Lemma extract_clean zip_path output_dir :
  one_line zip_path →
  (∀ content, one_line (exn_msg (open_error content))) →
  clean (extract cwd decode open_error zip_path output_dir).
Proof.
  intros Hzip Hreader. unfold extract.
  destruct (negb _); [by apply raises_raise, one_line_app|].
  apply raises_bind; [apply (raises_read _ (λ s, _))|].
  intros present. destruct (negb present); [by apply raises_raise, one_line_app|].
  apply raises_bind.
  - destruct output_dir; [apply raises_ret|].
    apply raises_bind; intros; apply raises_ret.
  - intros dest. apply raises_bind; [apply makedirs_rec_clean|].
    intros _. apply raises_bind.
    + unfold ZipFile. apply raises_bind.
      * intros s e s'. unfold read_file. destruct (sys_read _ _ _); [|done].
        intros [= <- _]. apply os_error_one_line.
      * intros content. destruct (decode content);
          [apply raises_ret|apply raises_raise, Hreader].
    + intros archive. apply extract_members_clean.
Qed.

(** C8, as the code has it: once the arguments have parsed, the line
    [Extracted successfully.] is on the standard output exactly when the
    process ends with status 0, and then nothing is on the error stream; for
    each handled failure (status 2, 3 or 4) nothing is on the standard output
    and the error stream holds one message and its newline, which is one line
    whenever the archive path holds no line break and, as with [zipfile], the
    messages of the reader hold none. *)
Theorem success_line_iff_status_0 argv args zip_path s :
  parse_args _build_parser argv = Namespace args →
  args !! "zippedfile" = Some zip_path →
  (has_line (stdout (main cwd decode open_error argv s)) "Extracted successfully." = true
   ↔ exit_status (main cwd decode open_error argv s) = 0)
  ∧ (exit_status (main cwd decode open_error argv s) = 0 →
     stdout (main cwd decode open_error argv s) = "Extracted successfully." +:+ nl
     ∧ stderr (main cwd decode open_error argv s) = "")
  ∧ (exit_status (main cwd decode open_error argv s) = 2
     ∨ exit_status (main cwd decode open_error argv s) = 3
     ∨ exit_status (main cwd decode open_error argv s) = 4 →
     stdout (main cwd decode open_error argv s) = ""
     ∧ ∃ msg, stderr (main cwd decode open_error argv s) = msg +:+ nl
              ∧ (one_line zip_path →
                 (∀ content, one_line (exn_msg (open_error content))) →
                 one_line msg)).
Proof.
  intros Hparse Hzip. rewrite (main_parsed _ _ _ _ _ _ _ Hparse Hzip).
  pose proof (extract_clean zip_path (args !! "output")) as Hclean.
  destruct (extract cwd decode open_error zip_path (args !! "output") s)
    as [[[]|[cls msg]] s'] eqn:Hex.
  - unfold exit_status. simpl.
    split; [split; [done|intros _; reflexivity]|].
    split; [done|]. intros [|[|]]; done.
  - assert (one_line zip_path →
            (∀ content, one_line (exn_msg (open_error content))) →
            one_line msg) as Hmsg.
    { intros H Hreader. apply (Hclean H Hreader _ _ _ Hex). }
    unfold exit_status.
    destruct cls; simpl; (split; [done|]); (split; [done|]);
      try (intros [|[|]]; done); intros _; (split; [done|]).
    + by exists msg.
    + by exists msg.
    + exists ("Invalid zip file: " +:+ msg). split; [done|].
      intros H Hreader. apply one_line_app; [done|by apply Hmsg].
    + by exists msg.
Qed.

End Messages.

Lemma success_line_iff_status_0_witness :
  has_line (stdout (main Sample.cwd Sample.decode Sample.open_error ["-l"; "/tmp/foo.zip"]
                      Sample.tree0)) "Extracted successfully." = true
  ↔ exit_status (main Sample.cwd Sample.decode Sample.open_error ["-l"; "/tmp/foo.zip"]
                   Sample.tree0) = 0.
Proof.
  apply (success_line_iff_status_0 Sample.cwd Sample.decode Sample.open_error
           ["-l"; "/tmp/foo.zip"] {[ "zippedfile" := "/tmp/foo.zip" ]}
           "/tmp/foo.zip" Sample.tree0); reflexivity.
Defined.

(** C8 as the spec states it fails on two invocations: [-h] ends with status
    0 and the help on the standard output, without the success line; and the
    failure of a command line without the required option writes two lines
    on the error stream. *)
Lemma success_line_iff_status_0_counterexample :
  exit_status (main Sample.cwd Sample.decode Sample.open_error ["-h"] Sample.tree0) = 0
  ∧ has_line (stdout (main Sample.cwd Sample.decode Sample.open_error ["-h"] Sample.tree0))
      "Extracted successfully." = false
  ∧ stderr (main Sample.cwd Sample.decode Sample.open_error [] Sample.tree0)
    = "usage: extract_zip_files [-h] -l ZIPPEDFILE [-o OUTPUT]" +:+ nl
      +:+ "extract_zip_files: error: the following arguments are required: -l/--zippedfile"
      +:+ nl.
Proof. repeat split. Qed.

(** A line break in the archive path shows in the message: the failure
    writes two lines. *)
Example message_of_two_lines :
  stderr (main Sample.cwd Sample.decode Sample.open_error ["-l"; "a" +:+ nl +:+ "b"] Sample.tree0)
  = "Not a zip file: a" +:+ nl +:+ "b" +:+ nl
  ∧ exit_status (main Sample.cwd Sample.decode Sample.open_error ["-l"; "a" +:+ nl +:+ "b"]
                   Sample.tree0) = 3.
Proof. split; reflexivity. Qed.

(** ** Extraction, member by member *)

Lemma bind_return_inv {A B} (m : M A) (f : A → M B) s b s' :
  (m ≫= f) s = (Return b, s') →
  ∃ a s1, m s = (Return a, s1) ∧ f a s1 = (Return b, s').
Proof.
  unfold mbind, M_bind. destruct (m s) as [[a|e] s1]; [|done].
  intros H. by exists a, s1.
Qed.

Lemma bind_return {A B} (m : M A) (f : A → M B) s a s1 :
  m s = (Return a, s1) → (m ≫= f) s = f a s1.
Proof. unfold mbind, M_bind. by intros ->. Qed.

Section Members.

Variable cwd : string.

Lemma member_done_mono s s' path m :
  grows s s' → member_done cwd s path m → member_done cwd s' path m.
Proof.
  intros Hg [(Hd & Hs) | (Hd & Hw & c & Hs)].
  - left. split; [done|].
    destruct (sys_stat_mono _ _ _ _ _ Hg Hs) as (n' & -> & K). by destruct n'.
  - right. split; [done|]. split; [done|].
    destruct (sys_stat_mono _ _ _ _ _ Hg Hs) as ([c'|] & -> & K); [|done].
    by exists c'.
Qed.

(** The directories above the target, lines 1746-1749 of [zipfile.py]. *)
Lemma upperdirs_dirs_added upperdirs :
  preserves dirs_added
    (if negb (Str.is_empty upperdirs) then
       present ← path_exists cwd upperdirs;
       if (present : bool) then mret tt else makedirs cwd upperdirs false
     else mret tt).
Proof.
  pose proof dirs_added_refl as Hr. pose proof dirs_added_trans as Ht.
  destruct (negb _); [|by apply preserves_ret].
  apply preserves_bind; [done|by apply preserves_read|].
  intros [|]; [by apply preserves_ret|apply makedirs_rec_dirs_added].
Qed.

(** One member extracted. *)
Lemma extract_member_spec filelist name path s t s' :
  _extract_member cwd filelist name path s = (Return t, s') →
  ∃ m, NameToInfo filelist name = Some m
       ∧ t = member_target path (filename m)
       ∧ grows s s'
       ∧ member_done cwd s' path m
       ∧ match ends_with_sep (filename m) with
         | Some false =>
             ∃ L, resolve cwd s' t = inr L
                  ∧ file_at s' L = Some (file_data m)
                  ∧ ∀ L', L' ≠ L → file_at s' L' = file_at s L'
         | _ => ∀ L, file_at s' L = file_at s L
         end.
Proof.
  unfold _extract_member, getinfo.
  destruct (NameToInfo filelist name) as [m|]; [|done].
  intros (m' & s0 & [= <- <-] & H)%bind_return_inv.
  apply bind_return_inv in H as ([] & sa & Hup & H).
  apply upperdirs_dirs_added in Hup as Hsa.
  apply bind_return_inv in H as (d & sa' & Hd & H).
  unfold is_dir in Hd.
  destruct (ends_with_sep (filename m)) as [d'|] eqn:Hkind; [|done].
  injection Hd as <- <-.
  exists m. split; [done|]. rewrite Hkind.
  set (T := member_target path (filename m)) in *.
  destruct Hsa as [Hsub Hfiles].
  destruct d'.
  - apply bind_return_inv in H as ([] & sb & Hmk & [= <- <-]).
    apply bind_return_inv in Hmk as (ok & sb' & Hok & Hmk).
    injection Hok as <- <-.
    destruct (sys_stat cwd sa T) as [e|[c|]] eqn:Hstat.
    + unfold mkdir, os_call in Hmk.
      destruct (sys_mkdir cwd sa T) as [e'|sb'] eqn:E; [done|].
      injection Hmk as <-.
      destruct (sys_mkdir_spec _ _ _ _ E) as (L & Hnone & -> & Hdir).
      destruct (dirs_added_insert sa L Hnone) as [Hsub' Hfiles'].
      split; [done|]. split; [apply subseteq_grows; by etrans|].
      split; [by left|]. intros L'. by rewrite Hfiles', Hfiles.
    + unfold mkdir, os_call in Hmk.
      destruct (sys_mkdir cwd sa T) as [e'|sb'] eqn:E; [done|].
      injection Hmk as <-.
      destruct (sys_mkdir_spec _ _ _ _ E) as (L & Hnone & -> & Hdir).
      destruct (dirs_added_insert sa L Hnone) as [Hsub' Hfiles'].
      split; [done|]. split; [apply subseteq_grows; by etrans|].
      split; [by left|]. intros L'. by rewrite Hfiles', Hfiles.
    + injection Hmk as <-.
      split; [done|]. split; [by apply subseteq_grows|].
      split; [by left|]. done.
  - apply bind_return_inv in H as ([] & sb & Hwr & [= <- <-]).
    unfold write_file, os_call in Hwr.
    destruct (sys_write cwd sa T (file_data m)) as [e'|sb'] eqn:E; [done|].
    injection Hwr as <-.
    destruct (sys_write_spec _ _ _ _ _ E) as (Hw & L & Hres & Hstat & -> & Hold).
    split; [done|]. split.
    { eapply grows_trans; [by apply subseteq_grows|by apply grows_insert_file]. }
    split.
    { right. split; [done|]. split; [done|]. by eexists. }
    exists L. split; [done|]. split.
    + unfold file_at. by rewrite lookup_insert_eq.
    + intros L' Hne. unfold file_at. rewrite lookup_insert_ne by done.
      apply Hfiles.
Qed.

(** One member extracted again, where it is in place already: the tree
    keeps its shape. *)
Lemma extract_member_again filelist name path t m :
  NameToInfo filelist name = Some m →
  member_done cwd t path m →
  ∃ t', _extract_member cwd filelist name path t
        = (Return (member_target path (filename m)), t')
        ∧ same_shape t t'.
Proof.
  intros Hm Hdone. unfold _extract_member, getinfo. rewrite Hm.
  rewrite (bind_return _ _ _ m t) by done.
  set (T := member_target path (filename m)) in *.
  assert (∃ n, sys_stat cwd t T = inr n) as [n Hn].
  { destruct Hdone as [(_ & H) | (_ & _ & c & H)]; by eexists. }
  assert ((if negb (Str.is_empty (dirname T)) then
             present ← path_exists cwd (dirname T);
             if (present : bool) then mret tt else makedirs cwd (dirname T) false
           else mret tt) t = (Return tt, t)) as Hup.
  { destruct (Str.is_empty (dirname T)) eqn:HU; [done|]. simpl.
    unfold mbind, M_bind, path_exists.
    rewrite (stat_dirname _ _ _ _ Hn); [done|]. by destruct (dirname T). }
  rewrite (bind_return _ _ _ tt t Hup).
  unfold is_dir.
  destruct Hdone as [(Hd & Hs) | (Hd & Hw & c & Hs)]; unfold T in *; rewrite Hd.
  - exists t. split; [|split; apply grows_refl].
    rewrite (bind_return _ _ _ true t) by done.
    rewrite (bind_return _ _ _ tt t); [done|].
    unfold mbind, M_bind, isdir. by rewrite Hs.
  - destruct (sys_write_over cwd t _ c (file_data m) Hw Hs) as (L & Hres & HL & Hwr).
    exists (<[L := File (file_data m)]> t). split.
    + rewrite (bind_return _ _ _ false t) by done.
      rewrite (bind_return _ _ _ tt (<[L := File (file_data m)]> t)); [done|].
      unfold write_file, os_call. by rewrite Hwr.
    + split.
      * apply grows_insert_file. intros n' Hn'. rewrite HL in Hn'. by injection Hn' as <-.
      * intros L' n'. destruct (decide (L = L')) as [<-|Hne].
        -- rewrite lookup_insert_eq. intros [= <-]. by exists (File c).
        -- rewrite lookup_insert_ne by done. intros H. exists n'.
           split; [done|apply same_kind_refl].
Qed.

End Members.

(** ** Extraction of the whole archive *)

Lemma last_satisfying {A} (Q : A → Prop) `{!∀ x, Decision (Q x)} (l : list A) :
  Forall (λ x, ¬ Q x) l
  ∨ ∃ l1 x l2, l = l1 ++ x :: l2 ∧ Q x ∧ Forall (λ y, ¬ Q y) l2.
Proof.
  induction l as [|x l [IH | (l1 & y & l2 & -> & Hy & Hl2)]].
  - by left.
  - destruct (decide (Q x)) as [Hx|Hx].
    + right. by exists [], x, l.
    + left. by constructor.
  - right. by exists (x :: l1), y, l2.
Qed.

Section Archive.

Variable cwd : string.

Lemma lookup_node_same_shape s t L :
  same_shape s t →
  match lookup_node s L, lookup_node t L with
  | Some n, Some n' => same_kind n n'
  | None, None => True
  | _, _ => False
  end.
Proof.
  intros [Hst Hts]. destruct L as [|c L]; [done|]. simpl.
  destruct (s !! (c :: L)) as [n|] eqn:Hs.
  - by destruct (Hst _ _ Hs) as (n' & -> & K).
  - destruct (t !! (c :: L)) as [n'|] eqn:Ht; [|done].
    destruct (Hts _ _ Ht) as (n & Hn & _). congruence.
Qed.

Lemma walk_same_shape s t cur comps :
  same_shape s t → walk s cur comps = walk t cur comps.
Proof.
  intros Hsh. revert cur. induction comps as [|c comps IH]; intros cur; [done|].
  simpl. pose proof (lookup_node_same_shape s t cur Hsh) as H.
  destruct (lookup_node s cur) as [[|]|], (lookup_node t cur) as [[|]|]; try done.
Qed.

Lemma resolve_same_shape s t p :
  same_shape s t → resolve cwd s p = resolve cwd t p.
Proof.
  intros Hsh. unfold resolve. destruct (Str.is_empty p); [done|].
  by apply walk_same_shape.
Qed.

Lemma same_shape_trans s1 s2 s3 :
  same_shape s1 s2 → same_shape s2 s3 → same_shape s1 s3.
Proof. intros [? ?] [? ?]. split; by eapply grows_trans. Qed.

(** A whole run: every member is in place at the end; a location that no
    write resolves to keeps its file; a write that no later write resolves
    to the location of is what its location holds. *)
Lemma extract_members_spec filelist names path s s' :
  extract_members cwd filelist names path s = (Return tt, s') →
  grows s s'
  ∧ Forall (λ name, ∃ m, NameToInfo filelist name = Some m
                         ∧ member_done cwd s' path m) names
  ∧ (∀ L, (∀ t c, (t, c) ∈ writes path filelist names →
                  resolve cwd s' t ≠ inr L) →
          file_at s' L = file_at s L)
  ∧ (∀ w1 t c w2,
       writes path filelist names = w1 ++ (t, c) :: w2 →
       (∀ t' c', (t', c') ∈ w2 → resolve cwd s' t' ≠ resolve cwd s' t) →
       ∃ L, resolve cwd s' t = inr L ∧ file_at s' L = Some c).
Proof.
  revert s. induction names as [|name names IH]; intros s; simpl.
  - intros [= <-]. split; [apply grows_refl|]. split; [done|]. split; [done|].
    intros [|] ????; done.
  - intros (t0 & s1 & Hstep & Hrest)%bind_return_inv.
    destruct (extract_member_spec _ _ _ _ _ _ _ Hstep)
      as (m & Hm & -> & Hg1 & Hdone & Hkind).
    destruct (IH _ Hrest) as (Hg2 & Hall & Hframe & Hcontent).
    split; [by eapply grows_trans|]. split.
    { constructor; [|done]. exists m. split; [done|].
      by eapply member_done_mono. }
    unfold writes in *. simpl.
    destruct (ends_with_sep (filename m)) as [[|]|] eqn:Hd;
      [replace (write_of path filelist name) with (@None (string * bytes))
         by (unfold write_of; by rewrite Hm, Hd)
      |replace (write_of path filelist name)
         with (Some (member_target path (filename m), file_data m))
         by (unfold write_of; by rewrite Hm, Hd)
      |replace (write_of path filelist name) with (@None (string * bytes))
         by (unfold write_of; by rewrite Hm, Hd)].
    + split.
      * intros L HL. rewrite (Hframe L HL). apply Hkind.
      * apply Hcontent.
    + destruct Hkind as (L0 & Hres & Hfile & Hother).
      pose proof (resolve_mono _ _ _ _ _ Hg2 Hres) as Hres'.
      split.
      * intros L HL. rewrite Hframe.
        -- apply Hother. intros ->.
           by apply (HL (member_target path (filename m)) (file_data m)); [left|].
        -- intros t c Hin. apply (HL t c). by right.
      * intros [|w w1] t c w2 Heq Hlater.
        -- injection Heq as <- <- <-. exists L0. split; [done|].
           rewrite Hframe; [done|].
           intros t' c' Hin. rewrite <- Hres'. by eapply Hlater.
        -- injection Heq as _ Heq. by eapply Hcontent.
    + split.
      * intros L HL. rewrite (Hframe L HL). apply Hkind.
      * apply Hcontent.
Qed.

(** A run over members that are all in place succeeds and keeps the shape
    of the tree. *)
Lemma extract_members_again filelist names path t :
  Forall (λ name, ∃ m, NameToInfo filelist name = Some m
                       ∧ member_done cwd t path m) names →
  ∃ t', extract_members cwd filelist names path t = (Return tt, t')
        ∧ same_shape t t'.
Proof.
  revert t. induction names as [|name names IH]; intros t Hall; simpl.
  - exists t. split; [done|]. split; apply grows_refl.
  - apply Forall_cons in Hall as [(m & Hm & Hdone) Hall].
    destruct (extract_member_again cwd _ _ _ _ _ Hm Hdone) as (t1 & Hstep & Hsh1).
    destruct (IH t1) as (t' & Hrest & Hsh2).
    { eapply Forall_impl; [exact Hall|]. intros name' (m' & Hm' & Hdone').
      exists m'. split; [done|]. eapply member_done_mono; [apply Hsh1|done]. }
    exists t'. split; [|by eapply same_shape_trans].
    by rewrite (bind_return _ _ _ _ _ Hstep).
Qed.

(** Extracting again into the tree that an extraction left changes
    nothing. *)
Lemma extract_members_twice filelist names path s s1 :
  extract_members cwd filelist names path s = (Return tt, s1) →
  extract_members cwd filelist names path s1 = (Return tt, s1).
Proof.
  intros Hrun1.
  destruct (extract_members_spec _ _ _ _ _ Hrun1) as (_ & Hall & Hframe1 & Hcontent1).
  destruct (extract_members_again _ _ _ _ Hall) as (t' & Hrun2 & Hsh).
  destruct (extract_members_spec _ _ _ _ _ Hrun2) as (_ & _ & Hframe2 & Hcontent2).
  rewrite Hrun2. f_equal.
  assert (∀ L, file_at t' L = file_at s1 L) as Hfiles.
  { intros L.
    destruct (last_satisfying
                (λ w : string * bytes, resolve cwd s1 w.1 = inr L)
                (writes path filelist names))
      as [Hnone | (w1 & [t c] & w2 & Heq & Ht & Hlater)].
    - apply Hframe2. intros t c Hin.
      rewrite <- (resolve_same_shape _ _ _ Hsh).
      rewrite Forall_forall in Hnone. apply (Hnone _ Hin).
    - simpl in Ht. rewrite Forall_forall in Hlater.
      destruct (Hcontent1 _ _ _ _ Heq) as (L1 & Hres1 & Hfile1).
      { intros t'' c'' Hin. rewrite Ht. apply (Hlater _ Hin). }
      destruct (Hcontent2 _ _ _ _ Heq) as (L2 & Hres2 & Hfile2).
      { intros t'' c'' Hin. rewrite <- !(resolve_same_shape _ _ _ Hsh), Ht.
        apply (Hlater _ Hin). }
      rewrite <- (resolve_same_shape _ _ _ Hsh) in Hres2.
      assert (L1 = L) as -> by congruence.
      assert (L2 = L) as -> by congruence.
      congruence. }
  apply map_eq. intros L. specialize (Hfiles L). unfold file_at in Hfiles.
  destruct Hsh as [H1 H2].
  destruct (s1 !! L) as [n|] eqn:Hs1.
  - destruct (H1 _ _ Hs1) as (n' & Hn' & K). rewrite Hn' in *.
    destruct n, n'; try done. congruence.
  - destruct (t' !! L) as [n'|] eqn:Ht'; [|done].
    destruct (H2 _ _ Ht') as (n & Hn & _). congruence.
Qed.

End Archive.

(** ** Extraction *)

Section Extraction.

Variable cwd : string.
Variable decode : bytes → option (list ZipInfo).
Variable open_error : bytes → exn.

(** What a run of [extract] that returns went through. *)
Lemma extract_inv zip_path output_dir s s1 :
  extract cwd decode open_error zip_path output_dir s = (Return tt, s1) →
  Str.endswith zip_path ".zip" = true
  ∧ ∃ content filelist sa,
      sys_read cwd s zip_path = inr content
      ∧ decode content = Some filelist
      ∧ makedirs cwd (destination cwd zip_path output_dir) true s
        = (Return tt, sa)
      ∧ extractall cwd filelist (destination cwd zip_path output_dir) sa
        = (Return tt, s1).
Proof.
  intros Hrun.
  destruct (Str.endswith zip_path ".zip") eqn:Hsuf;
    [|by rewrite extract_bad_suffix in Hrun].
  destruct (sys_stat cwd s zip_path) as [e|n] eqn:Hstat;
    [by rewrite (extract_missing _ _ _ _ _ _ _ Hsuf Hstat) in Hrun|].
  split; [done|].
  rewrite (extract_run _ _ _ _ _ _ _ Hsuf Hstat) in Hrun.
  apply bind_return_inv in Hrun as ([] & sa & Hmk & Hrun).
  apply bind_return_inv in Hrun as (filelist & sa' & Hzip & Hrun).
  unfold ZipFile in Hzip.
  apply bind_return_inv in Hzip as (content & sa'' & Hread & Hdec).
  unfold read_file in Hread.
  destruct (sys_read cwd sa zip_path) as [e|content'] eqn:Hr; [done|].
  injection Hread as <- <-.
  destruct (decode content') as [filelist'|] eqn:Hd; [|done].
  injection Hdec as <- <-.
  exists content', filelist', sa. repeat split; try done.
  pose proof (makedirs_subseteq _ _ _ _ _ _ Hmk) as Hsub.
  apply sys_read_stat in Hr.
  unfold sys_read.
  rewrite (sys_stat_subseteq _ _ _ _ _ Hsub Hstat) in Hr.
  injection Hr as ->. by rewrite Hstat.
Qed.

(** C7, as the code has it: when a run of [extract] has returned, has left
    the destination a directory and has left the archive file with its
    bytes, the same call returns again and leaves the tree as the first run
    left it; [os.makedirs] on the destination that exists returns with the
    tree unchanged, and the files are written over. *)
Theorem extract_twice zip_path output_dir s s1 :
  extract cwd decode open_error zip_path output_dir s = (Return tt, s1) →
  sys_stat cwd s1 (destination cwd zip_path output_dir) = inr Dir →
  sys_read cwd s1 zip_path = sys_read cwd s zip_path →
  makedirs cwd (destination cwd zip_path output_dir) true s1 = (Return tt, s1)
  ∧ extract cwd decode open_error zip_path output_dir s1 = (Return tt, s1).
Proof.
  intros Hrun Hdest Hsame.
  destruct (extract_inv _ _ _ _ Hrun)
    as (Hsuf & content & filelist & sa & Hread & Hdec & Hmk & Hall).
  rewrite Hread in Hsame.
  pose proof (makedirs_existing _ _ _ Hdest) as Hmk1.
  split; [done|].
  rewrite (extract_run _ _ _ _ _ _ _ Hsuf (sys_read_stat _ _ _ _ Hsame)).
  rewrite (bind_return _ _ _ _ _ Hmk1).
  rewrite (bind_return _ _ _ filelist s1).
  - unfold extractall in *. by eapply extract_members_twice.
  - unfold ZipFile, mbind, M_bind, read_file. by rewrite Hsame, Hdec.
Qed.

End Extraction.

Lemma extract_twice_witness :
  extract Sample.cwd Sample.decode Sample.open_error "/tmp/foo.zip" None
    (extract Sample.cwd Sample.decode Sample.open_error "/tmp/foo.zip" None Sample.tree0).2
  = (Return tt,
     (extract Sample.cwd Sample.decode Sample.open_error "/tmp/foo.zip" None Sample.tree0).2).
Proof.
  apply (extract_twice Sample.cwd Sample.decode Sample.open_error "/tmp/foo.zip" None
           Sample.tree0); reflexivity.
Defined.

(** C7 as the spec states it fails on two inputs.  The archive [/out/a.zip]
    holds a member named [a.zip]: extracted into [/out], the first run
    returns and has written the member over the archive, and the second run
    raises [BadZipFile].  With the file [f] in the working directory,
    [os.makedirs("x/../f/.", exist_ok=True)] returns without making a
    directory of that name; the first run on the empty archive returns, the
    second raises [NotADirectoryError]. *)
Lemma extract_twice_counterexample :
  (extract Sample.cwd Sample.decode Sample.open_error "/out/a.zip" (Some "/out") Sample.tree0).1
  = Return tt
  ∧ (extract Sample.cwd Sample.decode Sample.open_error "/out/a.zip" (Some "/out")
       (extract Sample.cwd Sample.decode Sample.open_error "/out/a.zip" (Some "/out")
          Sample.tree0).2).1
    = Raise (Exn BadZipFile "File is not a zip file")
  ∧ (extract Sample.cwd Sample.decode Sample.open_error "/tmp/empty.zip" (Some "x/../f/.")
       Sample.tree0).1
    = Return tt
  ∧ (extract Sample.cwd Sample.decode Sample.open_error "/tmp/empty.zip" (Some "x/../f/.")
       (extract Sample.cwd Sample.decode Sample.open_error "/tmp/empty.zip" (Some "x/../f/.")
          Sample.tree0).2).1
    = Raise (Exn NotADirectoryError
               "[Errno 20] Not a directory: 'x/../f/.'").
Proof. repeat split. Qed.

(** *** The members and the files *)


Lemma NameToInfo_some filelist name m :
  NameToInfo filelist name = Some m → m ∈ filelist ∧ filename m = name.
Proof.
  unfold NameToInfo. intros [Hin Heq]%List.find_some.
  apply String.eqb_eq in Heq. split; [|done].
  apply list_elem_of_In. by apply List.in_rev.
Qed.



Section Contents.

Variable cwd : string.
Variable decode : bytes → option (list ZipInfo).
Variable open_error : bytes → exn.


End Contents.



(** The paths and the bytes of the members, on the archive [/tmp/odd.zip]
    extracted into a new directory: the [..] of [../x] is dropped, the
    directory member is a directory, and of the two members named [d/y] the
    last is the file. *)
Example extract_odd_names :
  let s' := (extract Sample.cwd Sample.decode Sample.open_error "/tmp/odd.zip" (Some "/new")
               Sample.tree0).2 in
  (extract Sample.cwd Sample.decode Sample.open_error "/tmp/odd.zip" (Some "/new")
     Sample.tree0).1 = Return tt
  ∧ sys_read Sample.cwd s' "/new/x" = inr (Sample.b "X")
  ∧ sys_stat Sample.cwd s' "/new/d" = inr Dir
  ∧ sys_read Sample.cwd s' "/new/d/y" = inr (Sample.b "second")
  ∧ sys_stat Sample.cwd s' "/x" = inl ENOENT.
Proof. repeat split. Qed.

(** * Further properties of [extract], [_build_parser] and [main] *)

(** ** Nothing is removed *)

Section Grows.

Variable cwd : string.
Variable decode : bytes → option (list ZipInfo).
Variable open_error : bytes → exn.

Lemma preserves_impl {A : Type} (R R' : fs → fs → Prop) (m : M A) :
  (∀ s s', R s s' → R' s s') → preserves R m → preserves R' m.
Proof. intros HR Hm s r s' H. apply HR. by eapply Hm. Qed.

Lemma write_file_grows p content : preserves grows (write_file cwd p content).
Proof.
  intros s r s'. unfold write_file, os_call.
  destruct (sys_write cwd s p content) as [e|s1] eqn:E.
  - intros [= _ <-]. apply grows_refl.
  - intros [= _ <-].
    destruct (sys_write_spec _ _ _ _ _ E) as (_ & L & _ & _ & -> & Hold).
    by apply grows_insert_file.
Qed.

Lemma read_file_grows p : preserves grows (read_file cwd p).
Proof.
  intros s r s'. unfold read_file, os_call.
  destruct (sys_read cwd s p); intros [= _ <-]; apply grows_refl.
Qed.

Lemma extract_members_grows filelist members path :
  preserves grows (extract_members cwd filelist members path).
Proof.
  pose proof grows_refl as Hr. pose proof grows_trans as Ht.
  induction members as [|m members IH]; simpl; [by apply preserves_ret|].
  apply preserves_bind; [done| |done].
  unfold _extract_member. apply preserves_bind; [done| |].
  - unfold getinfo. destruct (NameToInfo _ _);
      [by apply preserves_ret|by apply preserves_raise].
  - intros member. apply preserves_bind; [done| |].
    + eapply preserves_impl; [apply dirs_added_grows|apply upperdirs_dirs_added].
    + intros _. apply preserves_bind; [done| |].
      * unfold is_dir. destruct (ends_with_sep _);
          [by apply preserves_ret|by apply preserves_raise].
      * intros [|].
        -- apply preserves_bind; [done| |intros; by apply preserves_ret].
           apply preserves_bind; [done|by apply preserves_read|].
           intros [|]; [by apply preserves_ret|].
           eapply preserves_impl; [apply dirs_added_grows|apply mkdir_dirs_added].
        -- apply preserves_bind; [done| |intros; by apply preserves_ret].
           apply write_file_grows.
Qed.

Lemma extract_grows zip_path output_dir :
  preserves grows (extract cwd decode open_error zip_path output_dir).
Proof.
  pose proof grows_refl as Hr. pose proof grows_trans as Ht.
  unfold extract. destruct (negb _); [by apply preserves_raise|].
  apply preserves_bind; [done|by apply preserves_read|].
  intros present. destruct (negb present); [by apply preserves_raise|].
  apply preserves_bind; [done| |].
  - destruct output_dir; [by apply preserves_ret|].
    apply preserves_bind; [done|by apply preserves_read|].
    intros; by apply preserves_ret.
  - intros dest. apply preserves_bind; [done| |].
    + eapply preserves_impl; [apply dirs_added_grows|].
      apply makedirs_rec_dirs_added.
    + intros _. apply preserves_bind; [done| |].
      * unfold ZipFile. apply preserves_bind; [done|apply read_file_grows|].
        intros content. destruct (decode content);
          [by apply preserves_ret|by apply preserves_raise].
      * intros archive. apply extract_members_grows.
Qed.

(** X1: whatever way they end, by returning or by raising at any point,
    [extract] and [main] remove nothing: every node of the tree before is
    still there afterwards, a directory as a directory and a file as a file. *)
Theorem extract_never_removes zip_path output_dir argv s :
  grows s (extract cwd decode open_error zip_path output_dir s).2
  ∧ grows s (tree (main cwd decode open_error argv s)).
Proof.
  assert (∀ zip_path output_dir,
            grows s (extract cwd decode open_error zip_path output_dir s).2) as Hex.
  { intros z o. destruct (extract cwd decode open_error z o s) as [r s'] eqn:E.
    by apply (extract_grows _ _ _ _ _ E). }
  split; [done|]. unfold main.
  destruct (parse_args _build_parser argv) as [args| |msg];
    [|apply grows_refl..].
  destruct (args !! "zippedfile") as [z|]; [|apply grows_refl].
  specialize (Hex z (args !! "output")).
  destruct (extract cwd decode open_error z (args !! "output") s) as [[[]|[[] msg]] s'];
    exact Hex.
Qed.

End Grows.

(** ** The errors that [main] does not turn into a code of its own *)

Section Edges.

Variable cwd : string.
Variable decode : bytes → option (list ZipInfo).
Variable open_error : bytes → exn.

(** [mkdir] on a path that names something fails with [EEXIST]. *)
Lemma sys_mkdir_eexist s p n :
  sys_stat cwd s p = inr n → sys_mkdir cwd s p = inl EEXIST.
Proof.
  unfold sys_stat, resolve, sys_mkdir.
  destruct (Str.is_empty p) eqn:Hp; [done|].
  destruct (rstrip_empty_spec (components cwd p)) as (k & Hc & _ & Hlast).
  destruct (walk s [] (components cwd p)) as [e|L1] eqn:Hwalk; [done|].
  destruct (lookup_node s L1) as [m|] eqn:Hl1; [|done]. intros _.
  destruct (rstrip_empty (components cwd p)) as [|c0 r0] eqn:Hcomps; [done|].
  remember (c0 :: r0) as comps' eqn:Hcs in *.
  assert (comps' ≠ []) as Hnil by (by subst comps').
  clear Hcs.
  pose proof (app_removelast_last "" Hnil) as Hsplit.
  rewrite Hc, Hsplit, <- List.app_assoc, walk_app in Hwalk.
  unfold parent_of.
  destruct (walk s [] (removelast comps')) as [e|L] eqn:Hw; [done|].
  simpl in Hwalk.
  destruct (lookup_node s L) as [[c|]|] eqn:HL; [done| |done].
  destruct (is_dot (List.last comps' "")) eqn:Hdot; [done|].
  assert (List.last comps' "" ≠ "") as Hne by (by destruct Hlast).
  rewrite (step_name _ _ Hne Hdot) in Hwalk.
  apply walk_empties in Hwalk as ->.
  destruct (L ++ [List.last comps' ""]) eqn:E; [by destruct L|].
  simpl in Hl1. by rewrite Hl1.
Qed.

(** [os.makedirs] raises [FileExistsError] on a path that names a regular
    file, with [exist_ok] too, and leaves the tree as it is. *)
Lemma makedirs_on_file name exist_ok s content :
  sys_stat cwd s name = inr (File content) →
  makedirs cwd name exist_ok s = (Raise (os_error EEXIST name), s).
Proof.
  intros Hfile. unfold makedirs. rewrite makedirs_rec_S.
  assert (Str.is_empty (makedirs_parts name).1 = false →
          sys_stat cwd s (makedirs_parts name).1 = inr Dir) as Hhead.
  { unfold makedirs_parts. intros Hne.
    destruct (Str.is_empty (basename name)); simpl in *.
    - assert (dirname (dirname name) ≠ "") as H2 by (by intros H; rewrite H in Hne).
      assert (dirname name ≠ "") as H1 by (by intros H; rewrite H in H2).
      eapply stat_dirname; [|done]. by eapply stat_dirname.
    - eapply stat_dirname; [done|]. by intros H; rewrite H in Hne. }
  assert (try_except (mkdir cwd name) is_OSError
            (λ e0, isdir cwd name ≫= λ ok : bool,
                   if negb exist_ok || negb ok then raise e0 else mret ()) s
          = (Raise (os_error EEXIST name), s)) as Hmk.
  { unfold try_except, mkdir, os_call. rewrite (sys_mkdir_eexist _ _ _ Hfile).
    cbn [is_OSError os_error errno_class].
    unfold mbind, M_bind, isdir. rewrite Hfile.
    by rewrite orb_true_r. }
  unfold mbind at 1. unfold M_bind at 1.
  destruct (Str.is_empty (makedirs_parts name).1) eqn:Hh; simpl;
    [by rewrite Hmk|].
  destruct (Str.is_empty (makedirs_parts name).2) eqn:Ht; simpl;
    [by rewrite Hmk|].
  unfold mbind at 1. unfold M_bind at 1. unfold path_exists at 1.
  rewrite (Hhead eq_refl). simpl. by rewrite Hmk.
Qed.

(** X4: when the path ends with [.zip] and names a directory, both checks of
    [extract] pass ([os.path.exists] holds of a directory); the destination
    is made, then opening the archive raises [IsADirectoryError]. [main] has
    no handler for it: it prints nothing and the process ends with status 1. *)
Theorem extract_directory_named_zip zip_path output_dir s sa :
  Str.endswith zip_path ".zip" = true →
  sys_stat cwd s zip_path = inr Dir →
  makedirs cwd (destination cwd zip_path output_dir) true s = (Return tt, sa) →
  extract cwd decode open_error zip_path output_dir s
  = (Raise (Exn IsADirectoryError
              ("[Errno 21] Is a directory: " +:+ repr zip_path)), sa)
  ∧ ∀ argv args,
      parse_args _build_parser argv = Namespace args →
      args !! "zippedfile" = Some zip_path →
      args !! "output" = output_dir →
      let run := main cwd decode open_error argv s in
      ended run
      = Uncaught (Exn IsADirectoryError
                    ("[Errno 21] Is a directory: " +:+ repr zip_path))
      ∧ exit_status run = 1
      ∧ stdout run = "" ∧ stderr run = "" ∧ tree run = sa.
Proof.
  intros Hsuf Hdir Hmk.
  assert (extract cwd decode open_error zip_path output_dir s
          = (Raise (Exn IsADirectoryError
                      ("[Errno 21] Is a directory: " +:+ repr zip_path)), sa))
    as Hex.
  { rewrite (extract_run _ _ _ _ _ _ _ Hsuf Hdir).
    unfold mbind at 1, M_bind at 1. rewrite Hmk.
    unfold ZipFile, read_file, mbind, M_bind, sys_read.
    by rewrite (sys_stat_subseteq _ _ _ _ _
                  (makedirs_subseteq _ _ _ _ _ _ Hmk) Hdir). }
  split; [done|]. intros argv args Hparse Hzip Hout.
  rewrite (main_parsed _ _ _ _ _ _ _ Hparse Hzip), Hout, Hex. by simpl.
Qed.

(** X5: when the destination names a regular file, [os.makedirs] raises
    [FileExistsError] although called with [exist_ok=True]: [extract] raises
    it with the tree untouched and the archive never opened, valid or not.
    [main] has no handler for it: the process ends with status 1. *)
Theorem extract_destination_is_a_file zip_path output_dir s n content :
  Str.endswith zip_path ".zip" = true →
  sys_stat cwd s zip_path = inr n →
  sys_stat cwd s (destination cwd zip_path output_dir) = inr (File content) →
  extract cwd decode open_error zip_path output_dir s
  = (Raise (Exn FileExistsError
              ("[Errno 17] File exists: "
               +:+ repr (destination cwd zip_path output_dir))), s)
  ∧ ∀ argv args,
      parse_args _build_parser argv = Namespace args →
      args !! "zippedfile" = Some zip_path →
      args !! "output" = output_dir →
      let run := main cwd decode open_error argv s in
      exit_status run = 1
      ∧ stdout run = "" ∧ stderr run = "" ∧ tree run = s.
Proof.
  intros Hsuf Hstat Hfile.
  assert (extract cwd decode open_error zip_path output_dir s
          = (Raise (Exn FileExistsError
                      ("[Errno 17] File exists: "
                       +:+ repr (destination cwd zip_path output_dir))), s))
    as Hex.
  { rewrite (extract_run _ _ _ _ _ _ _ Hsuf Hstat).
    unfold mbind at 1, M_bind at 1.
    by rewrite (makedirs_on_file _ _ _ _ Hfile). }
  split; [done|]. intros argv args Hparse Hzip Hout.
  rewrite (main_parsed _ _ _ _ _ _ _ Hparse Hzip), Hout, Hex. by simpl.
Qed.

(** X6: with the empty string as output directory, [os.makedirs] raises
    [FileNotFoundError]; [extract] raises it with the tree untouched, and
    [main] returns 2 and prints the message of the host, although the archive
    exists. *)
Theorem extract_empty_output_dir zip_path s n :
  Str.endswith zip_path ".zip" = true →
  sys_stat cwd s zip_path = inr n →
  extract cwd decode open_error zip_path (Some "") s
  = (Raise (Exn FileNotFoundError "[Errno 2] No such file or directory: ''"),
     s)
  ∧ ∀ argv args,
      parse_args _build_parser argv = Namespace args →
      args !! "zippedfile" = Some zip_path →
      args !! "output" = Some "" →
      let run := main cwd decode open_error argv s in
      ended run = Returned 2
      ∧ stdout run = ""
      ∧ stderr run = "[Errno 2] No such file or directory: ''" +:+ nl
      ∧ tree run = s.
Proof.
  intros Hsuf Hstat.
  assert (extract cwd decode open_error zip_path (Some "") s
          = (Raise (Exn FileNotFoundError
                      "[Errno 2] No such file or directory: ''"), s)) as Hex.
  { by rewrite (extract_run _ _ _ _ _ _ _ Hsuf Hstat). }
  split; [done|]. intros argv args Hparse Hzip Hout.
  rewrite (main_parsed _ _ _ _ _ _ _ Hparse Hzip), Hout, Hex. by simpl.
Qed.

End Edges.

(** ** The command line *)



(** An option string followed by a value stores the value. *)
Lemma consume_option actions arg a value rest values extras :
  String.eqb arg "-h" || String.eqb arg "--help" = false →
  find_action actions arg = Some a →
  looks_like_option value = false →
  consume actions (arg :: value :: rest) values extras
  = consume actions rest (<[dest a := value]> values) extras.
Proof. intros H1 H2 H3. simpl. by rewrite H1, H2, H3. Qed.




Section Usage.

Variable cwd : string.
Variable decode : bytes → option (list ZipInfo).
Variable open_error : bytes → exn.


End Usage.


(** X8: the two spellings of each option are interchangeable and the options
    come in any order: for a path and a directory that do not look like
    options, [parse_args] returns the namespace that holds them under
    [zippedfile] and [output], and the path alone when [-o] is left out. *)
Theorem parse_args_round_trip l o zip_path output_dir :
  l ∈ ["-l"; "--zippedfile"] → o ∈ ["-o"; "--output"] →
  looks_like_option zip_path = false →
  looks_like_option output_dir = false →
  parse_args _build_parser [l; zip_path]
  = Namespace {[ "zippedfile" := zip_path ]}
  ∧ parse_args _build_parser [l; zip_path; o; output_dir]
    = Namespace (<[ "output" := output_dir ]> {[ "zippedfile" := zip_path ]})
  ∧ parse_args _build_parser [o; output_dir; l; zip_path]
    = Namespace (<[ "output" := output_dir ]> {[ "zippedfile" := zip_path ]}).
Proof.
  intros Hl Ho Hz Hd.
  assert (∀ (m : gmap string string) v,
            bool_decide (is_Some (<["zippedfile" := v]> m !! "zippedfile"))
            = true) as Hhere.
  { intros m v. apply bool_decide_eq_true. by rewrite lookup_insert_eq. }
  assert (∀ v, bool_decide
                 (is_Some (<["output" := v]>
                             (<["zippedfile" := zip_path]> (∅ : gmap string string))
                           !! "zippedfile")) = true) as Hthere.
  { intros v. apply bool_decide_eq_true.
    by rewrite lookup_insert_ne, lookup_insert_eq. }
  apply list_elem_of_In in Hl as [<-|[<-|[]]];
    apply list_elem_of_In in Ho as [<-|[<-|[]]];
    (split; [|split]); unfold parse_args;
    repeat (erewrite consume_option; [|reflexivity|reflexivity|done]);
    simpl; rewrite ?Hhere, ?Hthere; simpl; try done;
    by rewrite insert_commute.
Qed.

(** ** The destination *)

Section Names.

Variable cwd : string.
Variable decode : bytes → option (list ZipInfo).
Variable open_error : bytes → exn.


(** X10: for an archive whose base name is [stem.zip], where [stem] has a
    character other than the dot, leaving the output directory out is the
    same as giving the working directory joined with [stem]: same outcome,
    same tree, in every state. *)
Theorem extract_default_is_stem zip_path stem s :
  basename zip_path = stem +:+ ".zip" →
  any_other stem extsep = true →
  extract cwd decode open_error zip_path None s
  = extract cwd decode open_error zip_path (Some (join cwd stem)) s.
Proof.
  intros Hbase Hother.
  destruct (default_destination_stem cwd _ _ Hbase Hother) as [Hd _].
  unfold destination in Hd. unfold extract.
  destruct (negb (Str.endswith zip_path ".zip")); [done|].
  unfold getcwd, path_exists, mbind, M_bind, mret, M_ret.
  destruct (sys_stat cwd s zip_path); cbn [negb]; [done|].
  by rewrite Hd.
Qed.

End Names.

(** ** Where the members go *)

(** Path resolution reaches the location that the components spell. *)
Lemma walk_locate s cur comps L :
  walk s cur comps = inr L → L = fold_left step comps cur.
Proof.
  revert cur. induction comps as [|c comps IH]; intros cur; simpl;
    [congruence|].
  destruct (lookup_node s cur) as [[|]|]; try done. apply IH.
Qed.

Lemma resolve_locate cwd s p L : resolve cwd s p = inr L → L = locate cwd p.
Proof.
  unfold resolve, locate. destruct (Str.is_empty p); [done|].
  apply walk_locate.
Qed.

Lemma split_nosep p :
  Forall (λ c, Str.contains c sep = false) (Str.split p sep).
Proof.
  induction p as [|a p IH]; simpl; [by constructor|].
  destruct (Ascii.eqb a sep) eqn:Ha; [by constructor|].
  destruct (Str.split p sep) as [|x xs]; [by constructor; [simpl; rewrite Ha|]|].
  inversion IH; subst. constructor; [|done]. simpl. by rewrite Ha.
Qed.

Lemma split_concat cs :
  cs ≠ [] → Forall (λ c, Str.contains c sep = false) cs →
  Str.split (String.concat "/" cs) sep = cs.
Proof.
  induction cs as [|h t IH]; [done|]. intros _ Hall.
  inversion Hall as [|? ? Hh Ht]; subst.
  destruct t as [|h' t'].
  - simpl. by apply split_absent.
  - change (String.concat "/" (h :: h' :: t'))
      with (h +:+ String sep (String.concat "/" (h' :: t'))).
    by rewrite split_app, (split_absent _ _ Hh), IH.
Qed.

Lemma step_skip cur c :
  String.eqb c "" || String.eqb c "." = true → step cur c = cur.
Proof. intros H. unfold step. by rewrite H. Qed.

Lemma fold_step_empties n cur : fold_left step (replicate n "") cur = cur.
Proof. induction n as [|n IH]; [done|]. simpl. by rewrite step_skip. Qed.

Lemma fold_split_concat cs cur :
  Forall (λ c, Str.contains c sep = false) cs →
  fold_left step (Str.split (String.concat "/" cs) sep) cur
  = fold_left step cs cur.
Proof.
  intros Hall. destruct cs as [|h t]; [done|]. by rewrite split_concat.
Qed.

Lemma step_plain cur c :
  negb (String.eqb c "" || String.eqb c "." || String.eqb c "..") = true →
  step cur c = cur ++ [c].
Proof.
  intros H. apply negb_true_iff in H.
  apply orb_false_iff in H as [H H3]. unfold step. by rewrite H, H3.
Qed.

Lemma fold_step_plain cs cur :
  Forall (λ c, negb (String.eqb c "" || String.eqb c "." || String.eqb c "..")
               = true) cs →
  fold_left step cs cur = cur ++ cs.
Proof.
  revert cur. induction cs as [|c cs IH]; intros cur Hall; simpl.
  - by rewrite List.app_nil_r.
  - inversion Hall; subst. rewrite step_plain by done.
    rewrite IH by done. by rewrite <- List.app_assoc.
Qed.

(** One turn of the loop of [normpath] keeps the location that the
    components collected so far spell, from the root for an absolute path and
    from anywhere for a relative one. *)
Lemma normpath_step_sound n B nc c :
  (n ≠ 0%nat → B = []) →
  Forall (λ c, c ≠ "" ∧ c ≠ ".") nc →
  Forall (λ c, c ≠ "" ∧ c ≠ ".") (normpath_step n nc c)
  ∧ fold_left step (rev (normpath_step n nc c)) B
    = step (fold_left step (rev nc) B) c.
Proof.
  intros HB Hnc. unfold normpath_step.
  destruct (String.eqb c "" || String.eqb c ".") eqn:H1.
  { split; [done|]. by rewrite step_skip. }
  assert (c ≠ "" ∧ c ≠ ".") as Hc.
  { apply orb_false_iff in H1 as [H1 H2].
    by apply String.eqb_neq in H1, H2. }
  assert (∀ c' nc', fold_left step (rev (c' :: nc')) B
                    = step (fold_left step (rev nc') B) c') as Hpush.
  { intros c' nc'. simpl. by rewrite fold_left_app. }
  destruct (String.eqb c "..") eqn:H2; cbn [negb orb];
    [|split; [by constructor|apply Hpush]].
  apply String.eqb_eq in H2 as ->.
  destruct nc as [|top below].
  - destruct n as [|n]; cbn [Nat.eqb andb orb].
    + split; [by constructor|apply Hpush].
    + split; [done|]. simpl. by rewrite HB.
  - rewrite andb_false_r. cbn [orb].
    destruct (String.eqb top "..") eqn:H3.
    + split; [by constructor|apply Hpush].
    + inversion Hnc as [|? ? [Ht1 Ht2] Hbelow]; subst. split; [done|].
      rewrite Hpush, (step_plain _ top).
      * unfold step. simpl. by rewrite removelast_last.
      * apply String.eqb_neq in Ht1, Ht2. by rewrite Ht1, Ht2, H3.
Qed.

Lemma normpath_fold_sound n B comps :
  (n ≠ 0%nat → B = []) →
  ∀ nc, Forall (λ c, c ≠ "" ∧ c ≠ ".") nc →
        Forall (λ c, c ≠ "" ∧ c ≠ ".") (fold_left (normpath_step n) comps nc)
        ∧ fold_left step (rev (fold_left (normpath_step n) comps nc)) B
          = fold_left step comps (fold_left step (rev nc) B).
Proof.
  intros HB. induction comps as [|c comps IH]; intros nc Hnc; simpl; [done|].
  destruct (normpath_step_sound n B nc c HB Hnc) as [H1 H2].
  destruct (IH _ H1) as [H3 H4]. split; [done|]. by rewrite H4, H2.
Qed.

Lemma normpath_fold_Forall (Q : string → Prop) n comps :
  Forall Q comps →
  ∀ nc, Forall Q nc → Forall Q (fold_left (normpath_step n) comps nc).
Proof.
  induction comps as [|c comps IH]; intros Hall nc Hnc; simpl; [done|].
  inversion Hall; subst. apply IH; [done|]. unfold normpath_step.
  destruct (_ || _); [done|].
  destruct (_ || _); [by constructor|].
  destruct nc; [done|]. by inversion Hnc.
Qed.

Lemma split_repeat_app n t :
  Str.split (Str.repeat sep n +:+ t) sep = replicate n "" ++ Str.split t sep.
Proof. induction n as [|n IH]; [done|]. simpl. by rewrite IH. Qed.

Lemma concat_empty cs :
  Forall (λ c, c ≠ "" ∧ c ≠ ".") cs → String.concat "/" cs = "" → cs = [].
Proof.
  destruct cs as [|h [|h' t]]; [done|..]; intros Hall; inversion Hall as [|? ? [Hh _] _]; subst.
  - simpl. by intros ->.
  - change (String.concat "/" (h :: h' :: t))
      with (h +:+ String sep (String.concat "/" (h' :: t))).
    by destruct h.
Qed.

Lemma concat_relative cs :
  Forall (λ c, c ≠ "" ∧ c ≠ ".") cs →
  Forall (λ c, Str.contains c sep = false) cs →
  Str.startswith (String.concat "/" cs) "/" = false.
Proof.
  destruct cs as [|h t]; [done|]. intros Hne Hsep.
  inversion Hne as [|? ? [Hh _] _]; inversion Hsep as [|? ? Hc _]; subst.
  assert (∃ u, String.concat "/" (h :: t) = h +:+ u) as [u ->].
  { destruct t; [exists ""; by rewrite str_app_nil_r|by eexists]. }
  destruct h as [|a h]; [done|]. rewrite str_app_cons. simpl in *.
  apply orb_false_iff in Hc as [Hc _].
  rewrite andb_true_r. unfold sep in Hc. by rewrite Ascii.eqb_sym.
Qed.

(** The location of a relative path: its components followed from the
    working directory. *)
Lemma locate_relative cwd p :
  Str.startswith p "/" = false →
  locate cwd p
  = fold_left step (Str.split p sep) (fold_left step (Str.split cwd sep) []).
Proof.
  intros H. unfold locate, components. rewrite H.
  change (cwd +:+ "/" +:+ p) with (cwd +:+ String sep p).
  by rewrite split_app, fold_left_app.
Qed.

Lemma locate_absolute cwd p :
  Str.startswith p "/" = true →
  locate cwd p = fold_left step (Str.split p sep) [].
Proof. intros H. unfold locate, components. by rewrite H. Qed.

(** [normpath] keeps the location of a path: what it folds away, [x/..]
    and the like, are steps that come back to where they left. *)
Lemma locate_normpath cwd q : locate cwd (normpath q) = locate cwd q.
Proof.
  unfold normpath. destruct (Str.is_empty q) eqn:Hq.
  { destruct q; [|done]. by rewrite !locate_relative. }
  pose proof (split_nosep q) as Hsep.
  destruct (Str.startswith q "/") eqn:Habs.
  - set (n := if Str.startswith q "//" && negb (Str.startswith q "///")
              then 2%nat else 1%nat).
    assert (∃ k, n = S k) as [k Hn] by (unfold n; destruct (_ && _); by eexists).
    destruct (normpath_fold_sound n [] (Str.split q sep) (λ _, eq_refl) []
                (Forall_nil_2 _)) as [Hne Hfold].
    pose proof (normpath_fold_Forall _ n _ Hsep [] (Forall_nil_2 _)) as Hnc.
    set (nc := fold_left (normpath_step n) (Str.split q sep) []) in *.
    assert (∀ t, Str.is_empty (Str.repeat sep n +:+ t) = false
                 ∧ Str.startswith (Str.repeat sep n +:+ t) "/" = true)
      as Hslash by (by rewrite Hn).
    rewrite (proj1 (Hslash _)).
    rewrite (locate_absolute _ _ (proj2 (Hslash _))), (locate_absolute _ q Habs).
    rewrite split_repeat_app, fold_left_app, fold_step_empties.
    rewrite fold_split_concat by (by apply Forall_rev).
    by rewrite Hfold.
  - cbn [Str.repeat]. change ("" +:+ ?x) with x.
    set (B := fold_left step (Str.split cwd sep) []).
    destruct (normpath_fold_sound 0 B (Str.split q sep) ltac:(done) []
                (Forall_nil_2 _)) as [Hne Hfold].
    pose proof (normpath_fold_Forall _ 0 _ Hsep [] (Forall_nil_2 _)) as Hnc.
    set (nc := fold_left (normpath_step 0) (Str.split q sep) []) in *.
    rewrite (locate_relative _ q Habs). fold B. simpl in Hfold.
    rewrite <- Hfold.
    destruct (Str.is_empty (String.concat "/" (rev nc))) eqn:He.
    + rewrite locate_relative by done. fold B.
      rewrite (concat_empty (rev nc)); [done|by apply Forall_rev|].
      by destruct (String.concat "/" (rev nc)).
    + rewrite locate_relative
        by (apply concat_relative; by apply Forall_rev).
      fold B. apply fold_split_concat. by apply Forall_rev.
Qed.

Lemma endswith_sep_inv p :
  Str.endswith p "/" = true → ∃ h, p = h +:+ "/".
Proof.
  induction p as [|a p IH]; simpl; [done|].
  intros [H%String.eqb_eq | H]%orb_true_iff.
  - exists "". by rewrite H.
  - destruct (IH H) as [h ->]. by exists (String a h).
Qed.

(** The location of a joined path: the second path followed from the
    location of the first. *)
Lemma locate_join cwd path arc :
  Str.startswith arc "/" = false →
  locate cwd (join path arc)
  = fold_left step (Str.split arc sep) (locate cwd path).
Proof.
  intros Harc. unfold join. rewrite Harc.
  destruct path as [|a path].
  { cbn [Str.is_empty orb]. change ("" +:+ arc) with arc.
    rewrite !locate_relative by done. simpl. by rewrite step_skip. }
  cbn [Str.is_empty orb].
  assert (∀ t, Str.startswith (String a path +:+ t) "/"
               = Str.startswith (String a path) "/") as Hsame by done.
  destruct (Str.endswith (String a path) "/") eqn:Hend.
  - destruct (endswith_sep_inv _ Hend) as [h Hh].
    unfold locate, components. rewrite Hsame. rewrite Hh.
    destruct (Str.startswith (h +:+ "/") "/").
    + rewrite str_app_assoc. change ("/" +:+ arc) with (String sep arc).
      change (h +:+ "/") with (h +:+ String sep "").
      rewrite !split_app, !fold_left_app. simpl. by rewrite step_skip.
    + rewrite str_app_assoc. change ("/" +:+ arc) with (String sep arc).
      change (cwd +:+ "/" +:+ h +:+ String sep arc)
        with (cwd +:+ String sep (h +:+ String sep arc)).
      change (cwd +:+ "/" +:+ h +:+ "/")
        with (cwd +:+ String sep (h +:+ String sep "")).
      rewrite !split_app, !fold_left_app. simpl. by rewrite step_skip.
  - unfold locate, components. rewrite Hsame.
    destruct (Str.startswith (String a path) "/").
    + change (String a path +:+ "/" +:+ arc)
        with (String a path +:+ String sep arc).
      by rewrite split_app, fold_left_app.
    + change (cwd +:+ "/" +:+ String a path +:+ "/" +:+ arc)
        with (cwd +:+ String sep (String a path +:+ String sep arc)).
      change (cwd +:+ "/" +:+ String a path)
        with (cwd +:+ String sep (String a path)).
      by rewrite !split_app, !fold_left_app.
Qed.

(** The location that a member is extracted to: that of the destination,
    followed by the components of the member name that are names. *)
Lemma locate_member_target cwd path name :
  locate cwd (member_target path name)
  = locate cwd path ++ plain_components name.
Proof.
  unfold member_target. fold (plain_components name).
  assert (Forall (λ c, negb (String.eqb c "" || String.eqb c "."
                             || String.eqb c "..") = true)
            (plain_components name)) as Hplain.
  { apply Forall_forall. intros c Hc%list_elem_of_In.
    by apply List.filter_In in Hc as [_ Hc]. }
  assert (Forall (λ c, Str.contains c sep = false) (plain_components name))
    as Hsep.
  { apply Forall_forall. intros c Hc%list_elem_of_In.
    apply List.filter_In in Hc as [Hc%list_elem_of_In _].
    pose proof (split_nosep name) as H. rewrite Forall_forall in H.
    by apply H. }
  assert (Forall (λ c, c ≠ "" ∧ c ≠ ".") (plain_components name)) as Hne.
  { eapply Forall_impl; [exact Hplain|]. intros c Hc. simpl in Hc.
    apply negb_true_iff, orb_false_iff in Hc as [Hc _].
    apply orb_false_iff in Hc as [H1 H2].
    by apply String.eqb_neq in H1, H2. }
  rewrite locate_normpath, locate_join by (by apply concat_relative).
  rewrite fold_split_concat by done. by apply fold_step_plain.
Qed.

Section Below.

Variable cwd : string.
Variable decode : bytes → option (list ZipInfo).
Variable open_error : bytes → exn.

Lemma kept_at_refl L s : kept_at L s s.
Proof. done. Qed.

Lemma kept_at_trans L s1 s2 s3 :
  kept_at L s1 s2 → kept_at L s2 s3 → kept_at L s1 s3.
Proof. unfold kept_at. congruence. Qed.

Lemma dirs_added_kept_at L s s' : dirs_added s s' → kept_at L s s'.
Proof. intros [_ H]. apply H. Qed.

Lemma write_file_kept_at L p content :
  L ≠ locate cwd p → preserves (kept_at L) (write_file cwd p content).
Proof.
  intros Hne s r s'. unfold write_file, os_call.
  destruct (sys_write cwd s p content) as [e|s1] eqn:E; intros [= _ <-]; [done|].
  destruct (sys_write_spec _ _ _ _ _ E) as (_ & L0 & Hres & _ & -> & _).
  apply resolve_locate in Hres as ->.
  unfold kept_at, file_at. by rewrite lookup_insert_ne.
Qed.

(** A file that is not at the location of a member stays as it is, however
    the extraction of the members ends. *)
Lemma extract_members_kept_at L filelist names path :
  (∀ m, m ∈ filelist →
        L ≠ locate cwd path ++ plain_components (filename m)) →
  preserves (kept_at L) (extract_members cwd filelist names path).
Proof.
  intros Hout.
  pose proof (kept_at_refl L) as Hr. pose proof (kept_at_trans L) as Ht.
  induction names as [|name names IH]; simpl; [by apply preserves_ret|].
  apply preserves_bind; [done| |done].
  unfold _extract_member, getinfo.
  destruct (NameToInfo filelist name) as [m|] eqn:Hm;
    [|by intros s r s'; unfold mbind, M_bind, raise; intros [= _ <-]].
  assert (∀ {A B} (a : A) (f : A → M B),
            preserves (kept_at L) (f a) → preserves (kept_at L) (mret a ≫= f))
    as Hret by (intros A B a f H s r s'; apply H).
  apply Hret. apply preserves_bind; [done| |].
  - eapply preserves_impl; [apply dirs_added_kept_at|apply upperdirs_dirs_added].
  - intros _. apply preserves_bind; [done| |].
    + unfold is_dir. destruct (ends_with_sep _);
        [by apply preserves_ret|by apply preserves_raise].
    + intros [|].
      * apply preserves_bind; [done| |intros; by apply preserves_ret].
        apply preserves_bind; [done|by apply preserves_read|].
        intros [|]; [by apply preserves_ret|].
        eapply preserves_impl; [apply dirs_added_kept_at|apply mkdir_dirs_added].
      * apply preserves_bind; [done| |intros; by apply preserves_ret].
        apply write_file_kept_at. rewrite locate_member_target.
        apply Hout. by apply (NameToInfo_some _ _ _ Hm).
Qed.

(** However [extract] ends, a file that is not at the location of a member
    of the archive stays as it is. *)
Lemma extract_kept_at zip_path output_dir s L :
  (∀ content filelist m,
     sys_read cwd s zip_path = inr content →
     decode content = Some filelist →
     m ∈ filelist →
     L ≠ locate cwd (destination cwd zip_path output_dir)
         ++ plain_components (filename m)) →
  kept_at L s (extract cwd decode open_error zip_path output_dir s).2.
Proof.
  intros Hout.
  destruct (Str.endswith zip_path ".zip") eqn:Hsuf;
    [|by rewrite (extract_bad_suffix _ _ _ _ _ _ Hsuf)].
  destruct (sys_stat cwd s zip_path) as [e|n] eqn:Hstat;
    [by rewrite (extract_missing _ _ _ _ _ _ _ Hsuf Hstat)|].
  rewrite (extract_run _ _ _ _ _ _ _ Hsuf Hstat).
  set (dest := destination cwd zip_path output_dir) in *.
  unfold mbind at 1, M_bind at 1.
  destruct (makedirs cwd dest true s) as [[[]|e1] sa] eqn:Hmk.
  - pose proof (makedirs_rec_dirs_added _ _ _ _ _ _ _ Hmk) as Hadd.
    pose proof (dirs_added_kept_at L _ _ Hadd) as Hsa.
    destruct Hadd as [Hsub _].
    unfold ZipFile, read_file, os_call, mbind, M_bind.
    destruct (sys_read cwd sa zip_path) as [e2|content] eqn:Hread; [done|].
    destruct (decode content) as [filelist|] eqn:Hdec; [|done].
    unfold mret, M_ret.
    destruct (extractall cwd filelist dest sa) as [r s'] eqn:Hall.
    eapply kept_at_trans; [exact Hsa|].
    eapply extract_members_kept_at; [|exact Hall].
    intros m Hm. apply (Hout content filelist m); [|done..].
    unfold sys_read in *. rewrite Hstat.
    rewrite (sys_stat_subseteq _ _ _ _ _ Hsub Hstat) in Hread.
    by destruct n.
  - simpl. by apply dirs_added_kept_at, (makedirs_rec_dirs_added _ _ _ _ _ _ _ Hmk).
Qed.

(** X11: however [extract] ends, a file of the tree changes, or a file
    appears, only at the location of the destination followed by the
    components of a member's name that are names: a location that is not of
    this form for any member of the archive holds after the run the file it
    held before, or no file as before. *)
Theorem extract_writes_at_members_only zip_path output_dir s L :
  (∀ content filelist m,
     sys_read cwd s zip_path = inr content →
     decode content = Some filelist →
     m ∈ filelist →
     L ≠ locate cwd (destination cwd zip_path output_dir)
         ++ plain_components (filename m)) →
  file_at (extract cwd decode open_error zip_path output_dir s).2 L = file_at s L.
Proof. apply extract_kept_at. Qed.

(** X12: no name of a member, whatever [..] or leading [/] it holds, takes a
    file out of the destination: however [extract] ends, and whatever the
    archive holds, a location that is not the destination's or below it
    keeps its file, or stays without one. *)
Theorem extract_never_writes_outside zip_path output_dir s L :
  ¬ locate cwd (destination cwd zip_path output_dir) `prefix_of` L →
  file_at (extract cwd decode open_error zip_path output_dir s).2 L = file_at s L.
Proof.
  intros Hout. apply extract_kept_at.
  intros content filelist m _ _ _ ->. apply Hout. by eexists.
Qed.

End Below.

(** ** The further properties on the sample tree *)

Lemma extract_directory_named_zip_witness :
  extract Sample.cwd Sample.decode Sample.open_error "/tmp/dir.zip" None tree_with_dir_zip
  = (Raise (Exn IsADirectoryError "[Errno 21] Is a directory: '/tmp/dir.zip'"),
     <[ ["home"; "u"; "dir"] := Dir ]> tree_with_dir_zip)
  ∧ exit_status (main Sample.cwd Sample.decode Sample.open_error ["-l"; "/tmp/dir.zip"]
                   tree_with_dir_zip) = 1.
Proof.
  destruct (extract_directory_named_zip Sample.cwd Sample.decode Sample.open_error
              "/tmp/dir.zip" None tree_with_dir_zip
              (<[ ["home"; "u"; "dir"] := Dir ]> tree_with_dir_zip)
              eq_refl eq_refl eq_refl) as [H1 H2].
  split; [exact H1|].
  destruct (H2 ["-l"; "/tmp/dir.zip"] {[ "zippedfile" := "/tmp/dir.zip" ]})
    as (_ & H & _); [reflexivity..|exact H].
Defined.

Lemma extract_destination_is_a_file_witness :
  extract Sample.cwd Sample.decode Sample.open_error "/tmp/foo.zip" (Some "/out/old.txt")
    Sample.tree0
  = (Raise (Exn FileExistsError "[Errno 17] File exists: '/out/old.txt'"),
     Sample.tree0)
  ∧ exit_status (main Sample.cwd Sample.decode Sample.open_error
                   ["-l"; "/tmp/foo.zip"; "-o"; "/out/old.txt"]
                   Sample.tree0) = 1.
Proof.
  destruct (extract_destination_is_a_file Sample.cwd Sample.decode Sample.open_error
              "/tmp/foo.zip" (Some "/out/old.txt") Sample.tree0
              (File Sample.foo_zip) (Sample.b "old")
              eq_refl eq_refl eq_refl) as [H1 H2].
  split; [exact H1|].
  destruct (H2 ["-l"; "/tmp/foo.zip"; "-o"; "/out/old.txt"]
              (<[ "output" := "/out/old.txt" ]>
                 {[ "zippedfile" := "/tmp/foo.zip" ]}))
    as (H & _); [reflexivity..|exact H].
Defined.

Lemma extract_empty_output_dir_witness :
  extract Sample.cwd Sample.decode Sample.open_error "/tmp/foo.zip" (Some "") Sample.tree0
  = (Raise (Exn FileNotFoundError "[Errno 2] No such file or directory: ''"),
     Sample.tree0)
  ∧ ended (main Sample.cwd Sample.decode Sample.open_error ["-l"; "/tmp/foo.zip"; "-o"; ""]
             Sample.tree0) = Returned 2.
Proof.
  destruct (extract_empty_output_dir Sample.cwd Sample.decode Sample.open_error
              "/tmp/foo.zip" Sample.tree0 (File Sample.foo_zip)
              eq_refl eq_refl) as [H1 H2].
  split; [exact H1|].
  destruct (H2 ["-l"; "/tmp/foo.zip"; "-o"; ""]
              (<[ "output" := "" ]> {[ "zippedfile" := "/tmp/foo.zip" ]}))
    as (H & _); [reflexivity..|exact H].
Defined.


Lemma parse_args_round_trip_witness :
  parse_args _build_parser ["--zippedfile"; "/tmp/foo.zip"]
  = Namespace {[ "zippedfile" := "/tmp/foo.zip" ]}
  ∧ parse_args _build_parser ["--zippedfile"; "/tmp/foo.zip"; "-o"; "out"]
    = Namespace (<[ "output" := "out" ]> {[ "zippedfile" := "/tmp/foo.zip" ]})
  ∧ parse_args _build_parser ["-o"; "out"; "--zippedfile"; "/tmp/foo.zip"]
    = Namespace (<[ "output" := "out" ]> {[ "zippedfile" := "/tmp/foo.zip" ]}).
Proof.
  apply (parse_args_round_trip "--zippedfile" "-o" "/tmp/foo.zip" "out");
    [set_solver|set_solver|reflexivity|reflexivity].
Defined.


Lemma extract_default_is_stem_witness :
  extract Sample.cwd Sample.decode Sample.open_error "/tmp/foo.zip" None Sample.tree0
  = extract Sample.cwd Sample.decode Sample.open_error "/tmp/foo.zip" (Some "/home/u/foo")
      Sample.tree0.
Proof.
  apply (extract_default_is_stem Sample.cwd Sample.decode Sample.open_error "/tmp/foo.zip"
           "foo" Sample.tree0); reflexivity.
Defined.

Lemma extract_writes_at_members_only_witness :
  file_at (extract Sample.cwd Sample.decode Sample.open_error "/tmp/odd.zip" (Some "/out")
             Sample.tree0).2 ["x"]
  = file_at Sample.tree0 ["x"].
Proof.
  apply extract_writes_at_members_only.
  intros content filelist m Hread Hdec Hm.
  assert (content = Sample.odd_zip) as -> by (by injection Hread).
  assert (filelist
          = [ {| filename := "../x"; file_data := Sample.b "X" |};
              {| filename := "d/"; file_data := [] |};
              {| filename := "d/y"; file_data := Sample.b "first" |};
              {| filename := "d/y"; file_data := Sample.b "second" |} ])
    as -> by (by injection Hdec).
  apply list_elem_of_In in Hm.
  destruct Hm as [<-|[<-|[<-|[<-|[]]]]]; intros H; vm_compute in H;
    discriminate H.
Defined.

Lemma extract_never_writes_outside_witness :
  file_at (extract Sample.cwd Sample.decode Sample.open_error "/tmp/odd.zip" (Some "/out")
             Sample.tree0).2 ["x"]
  = file_at Sample.tree0 ["x"].
Proof.
  apply extract_never_writes_outside.
  intros [k Hk]. vm_compute in Hk. discriminate Hk.
Defined.
